(** * split_3d: the grid builder and the cell clipper of [grid_split/core.py]

    A shallow embedding of [build_grid], [repair_mesh] and [slice_to_single]
    (src/grid_split/core.py), of the command line front end
    (src/grid_split/cli.py), of the preview (src/grid_split/preview.py) and
    of the print time estimate of the GUI (src/grid_split/gui.py).

    Coordinates, volumes and tolerances are Python/numpy floats in the source.
    They are embedded as exact rationals [Q]: every arithmetic operation of
    the source is the corresponding exact operation, so rounding is not part
    of the model.  Mesh objects live in a store, because the source shares and
    mutates them by reference. *)

From Stdlib Require Import String Ascii DecimalString Decimal DecimalNat.
From Stdlib Require Import QArith Qround ZArith Lia Lqa Bool List.
From Stdlib Require Finite.
From Stdlib Require Import Sorted Qminmax Qabs.
Import ListNotations.

Open Scope Q_scope.

(** ** Python exceptions and results *)

(** The exceptions raised by the code and its libraries, all of them
    instances of Python's [Exception], which is what [except Exception]
    catches.  Signals outside that class ([KeyboardInterrupt], [SystemExit])
    are not part of the model. *)

Inductive Exn : Type :=
| ValueError
| TypeError
| IndexError
| OSError
| EngineError (msg : string).

Inductive Res (A : Type) : Type :=
| Ok (a : A)
| Raise (e : Exn).
Arguments Ok {A} a.
Arguments Raise {A} e.

Definition res_bind {A B : Type} (r : Res A) (k : A -> Res B) : Res B :=
  match r with
  | Ok a => k a
  | Raise e => Raise e
  end.

Notation "'try!' x <- r ; k" := (res_bind r (fun x => k))
  (at level 60, x name, r at next level, right associativity).

(** ** Points, axes, cells *)

Definition Point3 : Type := (Q * Q * Q)%type.

Inductive Axis : Type := AxX | AxY | AxZ.

(** [p[0]], [p[1]], [p[2]] of the source. *)
Definition coord (p : Point3) (a : Axis) : Q :=
  match p, a with
  | (x, _, _), AxX => x
  | (_, y, _), AxY => y
  | (_, _, z), AxZ => z
  end.

(** A cell is the tuple [(cmin, cmax, (i, j, k))]. *)
Record Cell : Type := mkCell {
  cmin : Point3;
  cmax : Point3;
  cidx : nat * nat * nat
}.

(** ** numpy.arange

    [np.arange(start, stop, step)] has [ceil((stop - start) / step)] elements
    (none when that is not positive), the element of index [i] being
    [start + i * step]; the stop value itself is excluded.  A zero step makes
    the length computation fail, and numpy raises. *)

Definition arange_len (start stop step : Q) : nat :=
  Z.to_nat (Qceiling ((stop - start) / step)).

Definition arange_item (start step : Q) (i : nat) : Q :=
  start + inject_Z (Z.of_nat i) * step.

Definition arange (start stop step : Q) : Res (list Q) :=
  if Qeq_bool step 0 then Raise ValueError
  else Ok (map (arange_item start step) (seq 0 (arange_len start stop step))).

(** ** build_grid *)

(** The cut coordinates of one axis: [np.arange(min_pt[a], max_pt[a] + step[a], step[a])]. *)
Definition axis_cuts (bounds : Point3 * Point3) (step : Point3) (a : Axis) : Res (list Q) :=
  let '(min_pt, max_pt) := bounds in
  arange (coord min_pt a) (coord max_pt a + coord step a) (coord step a).

(** The three nested [for] loops over [range(len(xs) - 1)], [range(len(ys) - 1)],
    [range(len(zs) - 1)]; [range] of a negative number is empty, as is [seq 0]
    of the truncated subtraction. *)
Definition grid_cells (xs ys zs : list Q) : list Cell :=
  flat_map (fun i =>
    flat_map (fun j =>
      map (fun k =>
             mkCell (nth i xs 0, nth j ys 0, nth k zs 0)
                    (nth (i + 1) xs 0, nth (j + 1) ys 0, nth (k + 1) zs 0)
                    (i, j, k))
          (seq 0 (length zs - 1)))
      (seq 0 (length ys - 1)))
    (seq 0 (length xs - 1)).

Definition build_grid (bounds : Point3 * Point3) (step : Point3) : Res (list Cell) :=
  try! xs <- axis_cuts bounds step AxX;
  try! ys <- axis_cuts bounds step AxY;
  try! zs <- axis_cuts bounds step AxZ;
  Ok (grid_cells xs ys zs).

(** A point lies in the closed box of a cell. *)
Definition in_closed_box (lo hi p : Point3) : Prop :=
  forall a, coord lo a <= coord p a /\ coord p a <= coord hi a.

Definition origin : Point3 := (0, 0, 0).


(** ** Statements about the grid *)









(** ** Meshes, boxes, and the object store *)

(** A triangulated surface: vertex positions, and faces as triples of
    vertex indices. *)
Record Mesh : Type := mkMesh {
  vertices : list Point3;
  faces : list (nat * nat * nat)
}.

Definition empty_mesh : Mesh := mkMesh [] [].

(** [trimesh.creation.box(extents=e, transform=translation_matrix(c))]. *)
Record Box : Type := mkBox {
  extents : Point3;
  center : Point3
}.

Definition psub (p q : Point3) : Point3 :=
  (coord p AxX - coord q AxX, coord p AxY - coord q AxY, coord p AxZ - coord q AxZ).

Definition padd (p q : Point3) : Point3 :=
  (coord p AxX + coord q AxX, coord p AxY + coord q AxY, coord p AxZ + coord q AxZ).

Definition pdiv (p : Point3) (d : Q) : Point3 :=
  (coord p AxX / d, coord p AxY / d, coord p AxZ / d).

(** The box built in the [try] block: extents [cmax - cmin], centred at
    [(cmin + cmax) / 2]. *)
Definition cell_box (c : Cell) : Box :=
  mkBox (psub (cmax c) (cmin c)) (pdiv (padd (cmin c) (cmax c)) 2).

(** Python objects are referred to by their position in an append-only list
    of allocated meshes. *)
Definition loc : Type := nat.
Bind Scope nat_scope with loc.

Definition deref (h : list Mesh) (l : loc) : Mesh := nth l h empty_mesh.

Fixpoint update_at (h : list Mesh) (l : loc) (f : Mesh -> Mesh) : list Mesh :=
  match h, l with
  | [], _ => []
  | m :: h', O => f m :: h'
  | m :: h', S l' => m :: update_at h' l' f
  end.

(** ** The planar fallback *)

(** The six comparisons combined by [np.logical_and.reduce], for one vertex. *)
Definition vertex_inside (lo hi v : Point3) : bool :=
  Qle_bool (coord lo AxX) (coord v AxX) && Qle_bool (coord v AxX) (coord hi AxX)
  && Qle_bool (coord lo AxY) (coord v AxY) && Qle_bool (coord v AxY) (coord hi AxY)
  && Qle_bool (coord lo AxZ) (coord v AxZ) && Qle_bool (coord v AxZ) (coord hi AxZ).

Definition inside_flags (lo hi : Point3) (vs : list Point3) : list bool :=
  map (vertex_inside lo hi) vs.

(** One row of [inside[mesh.faces].all(axis=1)]; indexing beyond the vertex
    array raises [IndexError]. *)
Definition face_flag (inside : list bool) (f : nat * nat * nat) : Res bool :=
  let '(a, b, c) := f in
  match nth_error inside a, nth_error inside b, nth_error inside c with
  | Some x, Some y, Some z => Ok (x && y && z)
  | _, _, _ => Raise IndexError
  end.

Fixpoint face_mask (inside : list bool) (fs : list (nat * nat * nat)) : Res (list bool) :=
  match fs with
  | [] => Ok []
  | f :: fs' =>
      try! b <- face_flag inside f;
      try! bs <- face_mask inside fs';
      Ok (b :: bs)
  end.

(** The mask entry of a face whose indices are in range. *)
Definition corners_flag (inside : list bool) (f : nat * nat * nat) : bool :=
  let '(a, b, c) := f in
  nth a inside false && nth b inside false && nth c inside false.

(** Faces kept by a boolean mask, in order. *)
Fixpoint select_faces (fs : list (nat * nat * nat)) (mask : list bool) : list (nat * nat * nat) :=
  match fs, mask with
  | f :: fs', b :: mask' =>
      if b then f :: select_faces fs' mask' else select_faces fs' mask'
  | _, _ => []
  end.

Definition face_uses (i : nat) (f : nat * nat * nat) : bool :=
  let '(a, b, c) := f in Nat.eqb a i || Nat.eqb b i || Nat.eqb c i.

Fixpoint index_of (i : nat) (l : list nat) : nat :=
  match l with
  | [] => O
  | j :: l' => if Nat.eqb j i then O else S (index_of i l')
  end.

(** Modelled from the spec: [Trimesh.submesh] of the trimesh library, called
    as [mesh.submesh([mask], append=True, repair=False)], is missing from the
    sources.  Following "extract the induced sub-mesh from exactly those faces
    (no new vertices are synthesized)": the faces are the masked faces, the
    vertices are those the kept faces refer to, in index order, and the faces
    are renumbered accordingly. *)
Definition submesh (m : Mesh) (mask : list bool) : Mesh :=
  let kept := select_faces (faces m) mask in
  let used := filter (fun i => existsb (face_uses i) kept) (seq 0 (length (vertices m))) in
  mkMesh (map (fun i => nth i (vertices m) origin) used)
         (map (fun f => let '(a, b, c) := f in
                        (index_of a used, index_of b used, index_of c used))
              kept).

(** The corner positions of a face, and of all faces of a mesh. *)
Definition face_corners (m : Mesh) (f : nat * nat * nat) : Point3 * Point3 * Point3 :=
  let '(a, b, c) := f in
  (nth a (vertices m) origin, nth b (vertices m) origin, nth c (vertices m) origin).

Definition triangles (m : Mesh) : list (Point3 * Point3 * Point3) :=
  map (face_corners m) (faces m).

(** All three corners lie in the closed box. *)
Definition triangle_in_box (lo hi : Point3) (t : Point3 * Point3 * Point3) : Prop :=
  let '(p, q, r) := t in
  in_closed_box lo hi p /\ in_closed_box lo hi q /\ in_closed_box lo hi r.

Definition faces_in_range (m : Mesh) : Prop :=
  Forall (fun f => let '(a, b, c) := f in
                   (a < length (vertices m) /\ b < length (vertices m)
                    /\ c < length (vertices m))%nat)
         (faces m).

(** ** Node names *)

Definition decimal (n : nat) : string := NilEmpty.string_of_uint (Nat.to_uint n).

(** [f"chunk_{ix}_{jy}_{kz}"]. *)
Definition chunk_name (idx : nat * nat * nat) : string :=
  let '(ix, jy, kz) := idx in
  ("chunk_" ++ decimal ix ++ "_" ++ decimal jy ++ "_" ++ decimal kz)%string.

(** ** The trimesh library, as a capability

    What [core.py] calls in trimesh and does not define.  The boolean engine
    may keep a state of its own between calls and may raise; the in-place
    repairs are arbitrary functions on the content of the mesh they are
    applied to. *)
Class Trimesh (Engine : Type) : Type := {
  load_mesh : string -> Res Mesh;
  is_watertight : Mesh -> bool;
  mesh_bounds : Mesh -> option (Point3 * Point3);
  volume : Mesh -> Q;
  boolean_intersection : Engine -> Mesh -> Box -> Res Mesh * Engine;
  remove_infinite_values : Mesh -> Mesh;
  remove_duplicate_faces : Mesh -> Mesh;
  remove_degenerate_faces : Mesh -> Mesh;
  fill_holes : Mesh -> Mesh;
  remove_unreferenced_vertices : Mesh -> Mesh;
  fix_normals : Mesh -> Mesh;
  scene_export : list (string * Mesh) -> string -> Res unit
}.

Section Core.
Context {Engine Callback : Type} {T : Trimesh Engine}.

(** What the run does to the outside, in order. *)
Inductive Event : Type :=
| EvIntersect (mesh : loc) (box : Box)
| EvAdd (part : loc) (node_name : string)
| EvProgress (cb : Callback) (done total : nat)
| EvExport (path : string) (objects : list (string * Mesh)).

Record World : Type := mkWorld {
  heap : list Mesh;
  engine : Engine;
  scene : list (string * loc);
  trace : list Event
}.

(** Computations that read and change the world and may raise.  The world
    reached when an exception is raised is kept: Python undoes nothing. *)
Definition M (A : Type) : Type := World -> Res A * World.

Definition ret {A : Type} (a : A) : M A := fun w => (Ok a, w).

Definition raise {A : Type} (e : Exn) : M A := fun w => (Raise e, w).

Definition bind {A B : Type} (m : M A) (k : A -> M B) : M B :=
  fun w =>
    match m w with
    | (Ok a, w') => k a w'
    | (Raise e, w') => (Raise e, w')
    end.

(** [try: body except Exception: handler]. *)
Definition catch {A : Type} (body : M A) (handler : M A) : M A :=
  fun w =>
    match body w with
    | (Ok a, w') => (Ok a, w')
    | (Raise _, w') => handler w'
    end.

Definition lift {A : Type} (r : Res A) : M A := fun w => (r, w).

Definition read (l : loc) : M Mesh := fun w => (Ok (deref (heap w) l), w).

Definition alloc (m : Mesh) : M loc :=
  fun w => (Ok (length (heap w)),
            mkWorld (heap w ++ [m]) (engine w) (scene w) (trace w)).

Definition mutate (l : loc) (f : Mesh -> Mesh) : M unit :=
  fun w => (Ok tt, mkWorld (update_at (heap w) l f) (engine w) (scene w) (trace w)).

Definition emit (ev : Event) : M unit :=
  fun w => (Ok tt, mkWorld (heap w) (engine w) (scene w) (trace w ++ [ev])).

Definition new_scene : M unit :=
  fun w => (Ok tt, mkWorld (heap w) (engine w) [] (trace w)).

(** [trimesh.boolean.intersection([mesh, box], ...)]: the engine sees the
    content of the mesh and the box, moves to its next state, and either
    raises or returns a mesh, which is a new object. *)
Definition intersection (mesh : loc) (box : Box) : M loc :=
  fun w =>
    let '(r, e') := boolean_intersection (engine w) (deref (heap w) mesh) box in
    let tr := trace w ++ [EvIntersect mesh box] in
    match r with
    | Ok part =>
        (Ok (length (heap w)), mkWorld (heap w ++ [part]) e' (scene w) tr)
    | Raise e => (Raise e, mkWorld (heap w) e' (scene w) tr)
    end.

(** [scene.add_geometry(part, node_name=name)]. *)
Definition add_geometry (part : loc) (name : string) : M unit :=
  fun w => (Ok tt, mkWorld (heap w) (engine w) (scene w ++ [(name, part)])
                           (trace w ++ [EvAdd part name])).

(** [scene.export(path)]. *)
Definition export (path : string) : M unit :=
  fun w =>
    let objects := map (fun e => (fst e, deref (heap w) (snd e))) (scene w) in
    match scene_export objects path with
    | Ok _ => (Ok tt, mkWorld (heap w) (engine w) (scene w)
                              (trace w ++ [EvExport path objects]))
    | Raise e => (Raise e, w)
    end.
End Core.

Arguments Event : clear implicits.
Arguments World : clear implicits.
Arguments M : clear implicits.

Notation "x <- m ;; k" := (bind m (fun x => k))
  (at level 61, m at next level, right associativity).
Notation "m ;;; k" := (bind m (fun _ => k))
  (at level 61, right associativity).

Section CoreOperations.
Context {Engine Callback : Type} {T : Trimesh Engine}.

#[local] Abbreviation Run := (M Engine Callback).

(** *** repair_mesh *)
Definition repair_mesh (mesh : loc) : Run loc :=
  content <- read mesh ;;
  m <- alloc content ;;
  mutate m remove_infinite_values ;;;
  mutate m remove_duplicate_faces ;;;
  mutate m remove_degenerate_faces ;;;
  mutate m fill_holes ;;;
  mutate m remove_unreferenced_vertices ;;;
  mutate m fix_normals ;;;
  ret m.

(** *** The body of the loop of slice_to_single *)

(** The [except] branch: [part = None], replaced by the planar extraction
    when [fallback == "planar"]. *)
Definition planar_fallback (mesh : loc) (c : Cell) (fallback : string) : Run (option loc) :=
  if String.eqb fallback "planar" then
    m <- read mesh ;;
    mask <- lift (face_mask (inside_flags (cmin c) (cmax c) (vertices m)) (faces m)) ;;
    part <- alloc (submesh m mask) ;;
    ret (Some part)
  else ret None.

(** The [try] statement: the exact clip, else the fallback. *)
Definition clip_cell (mesh : loc) (c : Cell) (fallback : string) : Run (option loc) :=
  catch (part <- intersection mesh (cell_box c) ;; ret (Some part))
        (planar_fallback mesh c fallback).

(** [if part is not None and part.volume >= tol: scene.add_geometry(...)]. *)
Definition keep_fragment (part : option loc) (c : Cell) (tol : Q) : Run unit :=
  match part with
  | Some p =>
      content <- read p ;;
      if Qle_bool tol (volume content)
      then add_geometry p (chunk_name (cidx c))
      else ret tt
  | None => ret tt
  end.

(** [if progress: progress(idx, total)]. *)
Definition report (progress : option Callback) (idx total : nat) : Run unit :=
  match progress with
  | Some cb => emit (EvProgress cb idx total)
  | None => ret tt
  end.

Definition slice_cell (mesh : loc) (fallback : string) (tol : Q)
           (progress : option Callback) (total idx : nat) (c : Cell) : Run unit :=
  part <- clip_cell mesh c fallback ;;
  keep_fragment part c tol ;;;
  report progress idx total.

(** [for idx, cell in enumerate(cells, idx): ...]. *)
Fixpoint slice_cells (mesh : loc) (fallback : string) (tol : Q)
         (progress : option Callback) (total idx : nat) (cells : list Cell) : Run unit :=
  match cells with
  | [] => ret tt
  | c :: rest =>
      slice_cell mesh fallback tol progress total idx c ;;;
      slice_cells mesh fallback tol progress total (S idx) rest
  end.

(** *** slice_to_single *)
Definition slice_to_single (input_path : string) (size : Point3) (merged_path : string)
           (repair : bool) (fallback : string) (tol : Q)
           (progress : option Callback) : Run unit :=
  loaded <- lift (load_mesh input_path) ;;
  mesh0 <- alloc loaded ;;
  mesh <- (if repair && negb (is_watertight loaded)
           then repair_mesh mesh0 else ret mesh0) ;;
  new_scene ;;;
  content <- read mesh ;;
  bounds <- match mesh_bounds content with
            | Some b => ret b
            | None => raise TypeError
            end ;;
  cells <- lift (build_grid bounds size) ;;
  slice_cells mesh fallback tol progress (length cells) 1 cells ;;;
  export merged_path.
End CoreOperations.

(** ** Statements about the loop *)

Section CoreStatements.
Context {Engine Callback : Type} {T : Trimesh Engine}.

(** What the boolean engine answers for a cell in a given world. *)
Definition exact_outcome (w : World Engine Callback) (mesh : loc) (c : Cell) : Res Mesh * Engine :=
  boolean_intersection (engine w) (deref (heap w) mesh) (cell_box c).

(** The fragment the [except] branch leaves in [part]. *)
Definition fallback_fragment (m : Mesh) (c : Cell) (fallback : string) : Res (option Mesh) :=
  if String.eqb fallback "planar" then
    try! mask <- face_mask (inside_flags (cmin c) (cmax c) (vertices m)) (faces m);
    Ok (Some (submesh m mask))
  else Ok None.

(** The fragment produced for a cell: the exact clip, else the fallback. *)
Definition cell_fragment (w : World Engine Callback) (mesh : loc) (c : Cell)
           (fallback : string) : Res (option Mesh) :=
  match fst (exact_outcome w mesh c) with
  | Ok part => Ok (Some part)
  | Raise _ => fallback_fragment (deref (heap w) mesh) c fallback
  end.

Definition report_events (progress : option Callback) (idx total : nat)
  : list (Event Callback) :=
  match progress with
  | Some cb => [EvProgress cb idx total]
  | None => []
  end.


Definition reports (tr : list (Event Callback)) : list (Callback * nat * nat) :=
  flat_map (fun ev => match ev with
                      | EvProgress cb done total => [(cb, done, total)]
                      | _ => []
                      end) tr.


(** The repairs of [repair_mesh], composed. *)
Definition repaired (m : Mesh) : Mesh :=
  fix_normals
    (remove_unreferenced_vertices
       (fill_holes
          (remove_degenerate_faces
             (remove_duplicate_faces (remove_infinite_values m))))).

End CoreStatements.

(** [ks] is [l] with some elements left out. *)
Inductive Subseq {A : Type} : list A -> list A -> Prop :=
| Subseq_nil : Subseq [] []
| Subseq_skip (x : A) (ks l : list A) : Subseq ks l -> Subseq ks (x :: l)
| Subseq_take (x : A) (ks l : list A) : Subseq ks l -> Subseq (x :: ks) (x :: l).

(** No character of the string is an underscore. *)
Fixpoint no_underscore (s : string) : Prop :=
  match s with
  | EmptyString => True
  | String ch s' => ch <> "_"%char /\ no_underscore s'
  end.

(** ** The command line (cli.py) *)

(** The namespace [parse_args] returns. *)
Record Namespace : Type := mkNamespace {
  ns_input : option string;
  ns_size : option (list Q);
  ns_merged : option string;
  ns_repair : bool;
  ns_fallback : string;
  ns_gui : bool
}.

(** The defaults of [build_parser]: nothing required, [--fallback] "planar". *)
Definition build_parser : Namespace :=
  mkNamespace None None None false "planar" false.

(** The arguments of one call of [slice_to_single]. *)
Record SliceCall : Type := mkSliceCall {
  sc_input : string;
  sc_size : list Q;
  sc_merged : string;
  sc_repair : bool;
  sc_fallback : string;
  sc_tol : Q
}.

(** The defaults in the signature of [slice_to_single]. *)
Definition default_fallback : string := "planar".
Definition default_tol : Q := 1 # 1000000.

Inductive Outcome : Type :=
| LaunchedGui
| UsageError
| Finished (call : SliceCall) (printed : string).

Section Cli.
(** Python's [float] on an argument string; [None] when it raises. *)
Variable float : string -> option Q.

(** [parser.parse_args(argv)] for the options [build_parser] declares,
    each spelled in full and followed by its values; [None] stands for the
    usage error with which argparse exits. *)
Fixpoint parse_args (argv : list string) (ns : Namespace) : option Namespace :=
  match argv with
  | [] => Some ns
  | opt :: rest =>
      if String.eqb opt "--input" then
        match rest with
        | v :: rest' =>
            parse_args rest' (mkNamespace (Some v) (ns_size ns) (ns_merged ns)
                                          (ns_repair ns) (ns_fallback ns) (ns_gui ns))
        | [] => None
        end
      else if String.eqb opt "--size" then
        match rest with
        | a :: b :: c :: rest' =>
            match float a, float b, float c with
            | Some x, Some y, Some z =>
                parse_args rest' (mkNamespace (ns_input ns) (Some [x; y; z]) (ns_merged ns)
                                              (ns_repair ns) (ns_fallback ns) (ns_gui ns))
            | _, _, _ => None
            end
        | _ => None
        end
      else if String.eqb opt "--merged" then
        match rest with
        | v :: rest' =>
            parse_args rest' (mkNamespace (ns_input ns) (ns_size ns) (Some v)
                                          (ns_repair ns) (ns_fallback ns) (ns_gui ns))
        | [] => None
        end
      else if String.eqb opt "--repair" then
        parse_args rest (mkNamespace (ns_input ns) (ns_size ns) (ns_merged ns)
                                     true (ns_fallback ns) (ns_gui ns))
      else if String.eqb opt "--fallback" then
        match rest with
        | v :: rest' =>
            if String.eqb v "none" || String.eqb v "planar" then
              parse_args rest' (mkNamespace (ns_input ns) (ns_size ns) (ns_merged ns)
                                            (ns_repair ns) v (ns_gui ns))
            else None
        | [] => None
        end
      else if String.eqb opt "--gui" then
        parse_args rest (mkNamespace (ns_input ns) (ns_size ns) (ns_merged ns)
                                     (ns_repair ns) (ns_fallback ns) true)
      else None
  end.

(** [main(argv)]: the call
    [slice_to_single(args.input, tuple(args.size), args.merged, repair=args.repair)]
    leaves [fallback] and [tol] to their defaults. *)
Definition main (argv : list string) : Outcome :=
  match parse_args argv build_parser with
  | None => UsageError
  | Some args =>
      if ns_gui args then LaunchedGui
      else
        match ns_input args, ns_size args, ns_merged args with
        | Some input, Some size, Some merged =>
            Finished (mkSliceCall input size merged (ns_repair args)
                                  default_fallback default_tol)
                     merged
        | _, _, _ => UsageError
        end
  end.
End Cli.

(** [tuple(args.size)], read by the core as [step[0]], [step[1]], [step[2]]. *)
Definition size_tuple (size : list Q) : Point3 :=
  (nth 0 size 0, nth 1 size 0, nth 2 size 0).

(** The call itself; [progress] is left to its default [None]. *)
Definition perform {Engine Callback : Type} {T : Trimesh Engine} (call : SliceCall)
  : M Engine Callback unit :=
  slice_to_single (sc_input call) (size_tuple (sc_size call)) (sc_merged call)
                  (sc_repair call) (sc_fallback call) (sc_tol call) None.

(** [float] on unsigned decimal integer literals. *)
Definition float_of_digits (s : string) : option Q :=
  match NilZero.uint_of_string s with
  | Some d => Some (inject_Z (Z.of_nat (Nat.of_uint d)))
  | None => None
  end.

(** ** A concrete library

    A trimesh without a boolean backend: every intersection raises.  The
    engine state counts the calls, the volume of a mesh is taken to be its
    number of faces, and every mesh loads as [corner_mesh]. *)

Definition corner_mesh : Mesh :=
  mkMesh [(0, 0, 0); (1, 0, 0); (0, 1, 0); (0, 0, 1); (3, 3, 3)]
         [(0, 1, 2)%nat; (0, 1, 3)%nat; (0, 2, 3)%nat; (1, 2, 3)%nat; (1, 2, 4)%nat].

#[local] Instance no_backend : Trimesh nat := {|
  load_mesh := fun _ => Ok corner_mesh;
  is_watertight := fun _ => false;
  mesh_bounds := fun _ => Some (origin, (3, 3, 3));
  volume := fun m => inject_Z (Z.of_nat (length (faces m)));
  boolean_intersection := fun e _ _ => (Raise (EngineError "no backend"), S e);
  remove_infinite_values := fun m => m;
  remove_duplicate_faces := fun m => m;
  remove_degenerate_faces := fun m => m;
  fill_holes := fun m => m;
  remove_unreferenced_vertices := fun m => m;
  fix_normals := fun m => m;
  scene_export := fun _ _ => Ok tt
|}.

Definition unit_cell : Cell := mkCell origin (1, 1, 1) (0, 0, 0)%nat.

Definition far_cell : Cell := mkCell (5, 5, 5) (6, 6, 6) (1, 0, 0)%nat.

Definition start_world : World nat unit := mkWorld [corner_mesh] 0%nat [] [].

(** ** Further statements about the grid *)

(** Lexicographic order on index triples, [i] first and [k] last. *)
Definition idx_lt (p q : nat * nat * nat) : Prop :=
  let '(i, j, k) := p in
  let '(i', j', k') := q in
  (i < i' \/ (i = i' /\ (j < j' \/ (j = j' /\ k < k'))))%nat.

Definition unit_corner : Point3 := (1, 1, 1).
Definition step_06 : Point3 := (6 # 10, 6 # 10, 6 # 10).

(** ** Further statements about the run *)

Section RunStatements.
Context {Engine Callback : Type} {T : Trimesh Engine}.

(** The exports recorded in a trace. *)
Definition exports (tr : list (Event Callback)) : list (string * list (string * Mesh)) :=
  flat_map (fun ev => match ev with
                      | EvExport path objects => [(path, objects)]
                      | _ => []
                      end) tr.

(** [repair and not mesh.is_watertight]. *)
Definition repair_needed (repair : bool) (loaded : Mesh) : bool :=
  repair && negb (is_watertight loaded).

(** The mesh the loop works on, and where it is in the store, when the
    loaded mesh is allocated in a store of [n] objects. *)
Definition working_mesh (repair : bool) (loaded : Mesh) : Mesh :=
  if repair_needed repair loaded then repaired loaded else loaded.

Definition working_loc (repair : bool) (loaded : Mesh) (n : nat) : loc :=
  if repair_needed repair loaded then S n else n.

(** The world in which the loop starts. *)
Definition loop_start (repair : bool) (loaded : Mesh) (w : World Engine Callback)
  : World Engine Callback :=
  mkWorld (if repair_needed repair loaded
           then heap w ++ [loaded] ++ [repaired loaded]
           else heap w ++ [loaded])
          (engine w) [] (trace w).


(** Some face refers to a vertex that does not exist. *)
Definition face_out_of_range (m : Mesh) : Prop :=
  Exists (fun f => let '(a, b, c) := f in
                   (length (vertices m) <= a \/ length (vertices m) <= b
                    \/ length (vertices m) <= c)%nat)
         (faces m).
End RunStatements.

(** ** The preview (preview.py) *)

(** The constants of core.py used by the preview. *)
Definition RULER_STEP_MM : Q := 100.
Definition TICK_SIZE_RATIO : Q := 2 # 100.

(** [(max_pt - min_pt).max()]. *)
Definition largest_extent (min_pt max_pt : Point3) : Q :=
  let d := psub max_pt min_pt in
  Qmax (Qmax (coord d AxX) (coord d AxY)) (coord d AxZ).

(** A cutting plane: a thin box with its face colour. *)
Record PlaneMesh : Type := mkPlaneMesh {
  plane_box : Box;
  face_colors : list nat
}.

Definition _plane_mesh (axis : string) (x : Q) (bounds : Point3 * Point3) : PlaneMesh :=
  let '(min_pt, max_pt) := bounds in
  let thickness := largest_extent min_pt max_pt * (2 # 1000) in
  let '(lo, hi) :=
    if String.eqb axis "x" then
      ((x - thickness, coord min_pt AxY, coord min_pt AxZ),
       (x + thickness, coord max_pt AxY, coord max_pt AxZ))
    else if String.eqb axis "y" then
      ((coord min_pt AxX, x - thickness, coord min_pt AxZ),
       (coord max_pt AxX, x + thickness, coord max_pt AxZ))
    else
      ((coord min_pt AxX, coord min_pt AxY, x - thickness),
       (coord max_pt AxX, coord max_pt AxY, x + thickness)) in
  mkPlaneMesh (mkBox (psub hi lo) (pdiv (padd lo hi) 2)) [200; 50; 50; 80]%nat.


(** [p[axis]] for an integer axis; beyond the third component numpy raises. *)
Definition component (p : Point3) (axis : nat) : Res Q :=
  match axis with
  | 0%nat => Ok (coord p AxX)
  | 1%nat => Ok (coord p AxY)
  | 2%nat => Ok (coord p AxZ)
  | _ => Raise IndexError
  end.

(** A ruler: its line segments, and the colour given to each of them. *)
Record Ruler : Type := mkRuler {
  ruler_lines : list (Point3 * Point3);
  ruler_rgba : list nat
}.

(** One tick of the loop of [_axis_ruler]. *)
Definition ruler_tick (min_pt : Point3) (axis : nat) (tick_len x : Q) : Point3 * Point3 :=
  match axis with
  | 0%nat => ((x, coord min_pt AxY, coord min_pt AxZ),
              (x, coord min_pt AxY, coord min_pt AxZ + tick_len))
  | 1%nat => ((coord min_pt AxX, x, coord min_pt AxZ),
              (coord min_pt AxX + tick_len, x, coord min_pt AxZ))
  | _ => ((coord min_pt AxX, coord min_pt AxY, x),
          (coord min_pt AxX + tick_len, coord min_pt AxY, x))
  end.

(** The line along the whole axis. *)
Definition ruler_axis_line (min_pt max_pt : Point3) (axis : nat) : Point3 * Point3 :=
  match axis with
  | 0%nat => (min_pt, (coord max_pt AxX, coord min_pt AxY, coord min_pt AxZ))
  | 1%nat => (min_pt, (coord min_pt AxX, coord max_pt AxY, coord min_pt AxZ))
  | _ => (min_pt, (coord min_pt AxX, coord min_pt AxY, coord max_pt AxZ))
  end.

(** [steps = int(length // RULER_STEP_MM) + 1], and [range(steps)]. *)
Definition ruler_steps (length : Q) : Z := (Qfloor (length / RULER_STEP_MM) + 1)%Z.

Definition _axis_ruler (bounds : Point3 * Point3) (axis : nat) (color : nat * nat * nat)
  : Res Ruler :=
  let '(min_pt, max_pt) := bounds in
  try! hi <- component max_pt axis;
  try! lo <- component min_pt axis;
  let length := hi - lo in
  let tick_len := length * TICK_SIZE_RATIO in
  let ticks :=
    map (fun i => ruler_tick min_pt axis tick_len (lo + inject_Z (Z.of_nat i) * RULER_STEP_MM))
        (seq 0 (Z.to_nat (ruler_steps length))) in
  let '(r, g, b) := color in
  Ok (mkRuler (ticks ++ [ruler_axis_line (coord min_pt AxX, coord min_pt AxY, coord min_pt AxZ)
                                         max_pt axis])
              [r; g; b; 255%nat]).

Inductive Geometry : Type :=
| GeomMesh (m : Mesh)
| GeomPlane (p : PlaneMesh)
| GeomRuler (r : Ruler).

(** The scene of the preview: its geometry in the order added, and the
    camera and fog settings made. *)
Record PreviewScene : Type := mkPreviewScene {
  geometry : list Geometry;
  camera_angles : Point3;
  camera_distance : Q;
  camera_center : Point3;
  z_near : option Q;
  z_far : option Q;
  fog : option bool
}.

(** What the preview needs from numpy and trimesh beyond [Trimesh]: the
    Euclidean norm, the centroid of a mesh, and which attributes the camera
    and the scene have. *)
Class PreviewLib : Type := {
  norm : Point3 -> Q;
  centroid : Mesh -> Point3;
  camera_has_z_near : bool;
  camera_has_z_far : bool;
  scene_has_fog : bool
}.

Section Preview.
Context {Engine : Type} {T : Trimesh Engine} {P : PreviewLib}.

(** One of the three loops adding cutting planes:
    [for x in np.arange(bounds[0][a] + cell[a], bounds[1][a], cell[a])]. *)
Definition cutting_planes (axis : string) (a : Axis) (bounds : Point3 * Point3) (cell : Point3)
  : Res (list Geometry) :=
  try! xs <- arange (coord (fst bounds) a + coord cell a) (coord (snd bounds) a) (coord cell a);
  Ok (map (fun x => GeomPlane (_plane_mesh axis x bounds)) xs).

Definition create_preview_scene (model_path : string) (cell : Point3) : Res PreviewScene :=
  try! mesh <- load_mesh model_path;
  try! bounds <- match mesh_bounds mesh with
                 | Some b => Ok b
                 | None => Raise TypeError
                 end;
  try! px <- cutting_planes "x" AxX bounds cell;
  try! py <- cutting_planes "y" AxY bounds cell;
  try! pz <- cutting_planes "z" AxZ bounds cell;
  try! rx <- _axis_ruler bounds 0 (255, 0, 0)%nat;
  try! ry <- _axis_ruler bounds 1 (0, 255, 0)%nat;
  try! rz <- _axis_ruler bounds 2 (0, 0, 255)%nat;
  let diag := norm (psub (snd bounds) (fst bounds)) in
  Ok (mkPreviewScene
        ([GeomMesh mesh] ++ px ++ py ++ pz ++ [GeomRuler rx; GeomRuler ry; GeomRuler rz])
        (3 # 10, - (5 # 10), 0) (diag * 2) (centroid mesh)
        (if camera_has_z_near then Some (diag * (1 # 1000)) else None)
        (if camera_has_z_far then Some (diag * 10) else None)
        (if scene_has_fog then Some false else None)).
End Preview.

(** ** The print time estimate of the GUI (gui.py, [on_slice]) *)


(** [t_sec] from the volume and the area of the mesh. *)
Definition print_seconds (vol area : Q) : Q :=
  let infill := 1 # 10 in
  let perimeters := 2 in
  let line_width := 4 # 10 in
  let shell_thickness := perimeters * line_width in
  let extruded_vol := vol * infill + area * shell_thickness in
  let flow_rate := 21 in
  extruded_vol / flow_rate.


(** ** More concrete data *)

(** A library whose boolean engine hands back the mesh it was given. *)
Definition echo_backend : Trimesh nat := {|
  load_mesh := fun _ => Ok corner_mesh;
  is_watertight := fun _ => true;
  mesh_bounds := fun _ => Some (origin, (3, 3, 3));
  volume := fun m => inject_Z (Z.of_nat (length (faces m)));
  boolean_intersection := fun e m _ => (Ok m, S e);
  remove_infinite_values := fun m => m;
  remove_duplicate_faces := fun m => m;
  remove_degenerate_faces := fun m => m;
  fill_holes := fun m => m;
  remove_unreferenced_vertices := fun m => m;
  fix_normals := fun m => m;
  scene_export := fun _ _ => Ok tt
|}.

(** A stand-in for numpy's norm (the sum of the absolute components) and a
    camera with both clipping attributes. *)
#[local] Instance sample_preview : PreviewLib := {|
  norm := fun p => Qabs (coord p AxX) + Qabs (coord p AxY) + Qabs (coord p AxZ);
  centroid := fun _ => origin;
  camera_has_z_near := true;
  camera_has_z_far := true;
  scene_has_fog := false
|}.

Definition cube3_corner : Point3 := (3, 3, 3).

Definition cube3_cell : Cell := mkCell origin cube3_corner (0, 0, 0)%nat.

(** A mesh whose only face refers to two missing vertices. *)
Definition broken_mesh : Mesh := mkMesh [(0, 0, 0)] [(0, 1, 2)%nat].

Definition broken_world : World nat unit := mkWorld [broken_mesh] 0%nat [] [].


(* ================================================================== *)
(** * Properties *)

(** ** Rational helpers *)






(** ** numpy.arange *)

Lemma Qeq_bool_false_neq (x y : Q) : Qeq_bool x y = false -> ~ x == y.
Proof. intros H E. apply Qeq_bool_iff in E. congruence. Qed.


Lemma arange_zero_step (start stop step : Q) :
  step == 0 -> arange start stop step = Raise ValueError.
Proof.
  intros E. unfold arange. apply Qeq_bool_iff in E. now rewrite E.
Qed.








(** ** build_grid *)







Lemma neg_nonzero (q : Q) : q < 0 -> ~ q == 0.
Proof. intros H E. rewrite E in H. discriminate. Qed.










Lemma build_grid_zero_step (bounds : Point3 * Point3) (step : Point3) (a : Axis) :
  coord step a == 0 -> build_grid bounds step = Raise ValueError.
Proof.
  destruct bounds as [mn mx]. intros Hz.
  unfold build_grid, axis_cuts, arange.
  apply Qeq_bool_iff in Hz.
  destruct (Qeq_bool (coord step AxX) 0) eqn:EX; [reflexivity|].
  destruct (Qeq_bool (coord step AxY) 0) eqn:EY; [reflexivity|].
  destruct (Qeq_bool (coord step AxZ) 0) eqn:EZ; [reflexivity|].
  destruct a; congruence.
Qed.







(** ** The loop of slice_to_single *)

Section CoreProperties.
Context {Engine Callback : Type} {T : Trimesh Engine}.

#[local] Abbreviation W := (World Engine Callback).

Lemma deref_app_new (h : list Mesh) (m : Mesh) : deref (h ++ [m]) (length h) = m.
Proof. unfold deref. now rewrite nth_middle. Qed.

Lemma deref_app_old (h extra : list Mesh) (l : loc) :
  (l < length h)%nat -> deref (h ++ extra) l = deref h l.
Proof. intros Hl. unfold deref. now rewrite app_nth1. Qed.

(** The effect of the loop body, case by case. *)
Lemma slice_cell_run (mesh : loc) (fallback : string) (tol : Q)
      (progress : option Callback) (total idx : nat) (c : Cell) (w : W) :
  slice_cell mesh fallback tol progress total idx c w
  = let e' := snd (exact_outcome w mesh c) in
    let tr := trace w ++ [EvIntersect mesh (cell_box c)] in
    let name := chunk_name (cidx c) in
    let l := length (heap w) in
    match cell_fragment w mesh c fallback with
    | Raise e => (Raise e, mkWorld (heap w) e' (scene w) tr)
    | Ok None =>
        (Ok tt, mkWorld (heap w) e' (scene w) (tr ++ report_events progress idx total))
    | Ok (Some part) =>
        if Qle_bool tol (volume part)
        then (Ok tt, mkWorld (heap w ++ [part]) e' (scene w ++ [(name, l)])
                             ((tr ++ [EvAdd l name]) ++ report_events progress idx total))
        else (Ok tt, mkWorld (heap w ++ [part]) e' (scene w)
                             (tr ++ report_events progress idx total))
    end.
Proof.
  unfold slice_cell, clip_cell, catch, bind, intersection, cell_fragment, exact_outcome.
  destruct (boolean_intersection (engine w) (deref (heap w) mesh) (cell_box c))
    as [[part | e] e'] eqn:Hbi; cbn [fst snd].
  - unfold ret, keep_fragment, bind, read. cbn [heap].
    rewrite deref_app_new.
    destruct (Qle_bool tol (volume part)); unfold add_geometry, ret, report, emit;
      destruct progress; cbn; rewrite ?app_nil_r; reflexivity.
  - unfold planar_fallback, fallback_fragment.
    destruct (String.eqb fallback "planar").
    + unfold bind, read, lift. cbn [heap].
      destruct (face_mask _ _) as [mask | e1]; cbn [res_bind]; [|reflexivity].
      unfold alloc, ret, keep_fragment, bind, read. cbn [heap].
      rewrite deref_app_new.
      destruct (Qle_bool tol (volume (submesh _ mask)));
        unfold add_geometry, ret, report, emit;
        destruct progress; cbn; rewrite ?app_nil_r; reflexivity.
    + unfold ret, keep_fragment, report, emit, bind.
      destruct progress; cbn; rewrite ?app_nil_r; reflexivity.
Qed.
End CoreProperties.

(** ** The planar fallback *)

Lemma vertex_inside_iff (lo hi v : Point3) :
  vertex_inside lo hi v = true <-> in_closed_box lo hi v.
Proof.
  unfold vertex_inside, in_closed_box.
  rewrite !andb_true_iff, !Qle_bool_iff. split.
  - intros [[[[[H1 H2] H3] H4] H5] H6] a. destruct a; split; assumption.
  - intros H. repeat split; apply H.
Qed.

Lemma face_flag_ok (inside : list bool) (f : nat * nat * nat) :
  (let '(a, b, c) := f in
   (a < length inside /\ b < length inside /\ c < length inside)%nat) ->
  face_flag inside f = Ok (corners_flag inside f).
Proof.
  destruct f as [[a b] c]. intros (Ha & Hb & Hc). unfold face_flag, corners_flag.
  rewrite (nth_error_nth' inside false Ha), (nth_error_nth' inside false Hb),
    (nth_error_nth' inside false Hc).
  reflexivity.
Qed.

Lemma face_mask_ok (inside : list bool) (fs : list (nat * nat * nat)) :
  Forall (fun f => let '(a, b, c) := f in
                   (a < length inside /\ b < length inside /\ c < length inside)%nat) fs ->
  face_mask inside fs = Ok (map (corners_flag inside) fs).
Proof.
  induction 1 as [|f fs Hf _ IH]; [reflexivity|].
  simpl. rewrite (face_flag_ok _ _ Hf), IH. reflexivity.
Qed.

Lemma select_faces_map (g : nat * nat * nat -> bool) (fs : list (nat * nat * nat)) :
  select_faces fs (map g fs) = filter g fs.
Proof.
  induction fs as [|f fs IH]; [reflexivity|].
  simpl. rewrite IH. reflexivity.
Qed.

Lemma index_of_nth {A : Type} (g : nat -> A) (d : A) (a : nat) (used : list nat) :
  In a used -> nth (index_of a used) (map g used) d = g a.
Proof.
  induction used as [|j used IH]; [intros []|].
  intros Hin. simpl. destruct (Nat.eqb j a) eqn:E.
  - apply Nat.eqb_eq in E. now subst.
  - apply Nat.eqb_neq in E. destruct Hin as [-> | Hin]; [contradiction|].
    simpl. now apply IH.
Qed.

Lemma nth_inside_flags (lo hi : Point3) (vs : list Point3) (i : nat) :
  nth i (inside_flags lo hi vs) false = true ->
  (i < length vs)%nat /\ in_closed_box lo hi (nth i vs origin).
Proof.
  intros H.
  assert (Hi : (i < length vs)%nat).
  { destruct (Nat.lt_ge_cases i (length vs)) as [|Hge]; [assumption|].
    rewrite nth_overflow in H by (unfold inside_flags; now rewrite length_map).
    discriminate. }
  split; [exact Hi|].
  apply vertex_inside_iff. rewrite <- H. unfold inside_flags.
  rewrite (nth_indep _ false (vertex_inside lo hi origin))
    by (now rewrite length_map).
  now rewrite map_nth.
Qed.

(** The triangles and vertices of the submesh cut out by the fallback mask. *)
Lemma submesh_of_mask (lo hi : Point3) (m : Mesh) :
  let g := corners_flag (inside_flags lo hi (vertices m)) in
  let frag := submesh m (map g (faces m)) in
  triangles frag = map (face_corners m) (filter g (faces m))
  /\ Forall (in_closed_box lo hi) (vertices frag).
Proof.
  intros g frag. subst frag. unfold submesh. rewrite select_faces_map.
  set (kept := filter g (faces m)).
  set (used := filter (fun i => existsb (face_uses i) kept) (seq 0 (length (vertices m)))).
  assert (Hkept : forall f, In f kept ->
            let '(a, b, c) := f in
            nth a (inside_flags lo hi (vertices m)) false = true
            /\ nth b (inside_flags lo hi (vertices m)) false = true
            /\ nth c (inside_flags lo hi (vertices m)) false = true).
  { intros [[a b] c] Hin. apply filter_In in Hin as [_ Hg].
    unfold g, corners_flag in Hg. apply andb_true_iff in Hg as [Hg Hc].
    apply andb_true_iff in Hg as [Ha Hb]. auto. }
  assert (Hused : forall f i, In f kept -> face_uses i f = true -> In i used).
  { intros f i Hin Hu. unfold used. apply filter_In. split.
    - apply in_seq. split; [lia|]. simpl.
      specialize (Hkept f Hin). destruct f as [[a b] c].
      destruct Hkept as (Ha & Hb & Hc).
      unfold face_uses in Hu. apply orb_true_iff in Hu as [Hu | Hu].
      + apply orb_true_iff in Hu as [Hu | Hu]; apply Nat.eqb_eq in Hu; subst i;
          now apply nth_inside_flags in Ha, Hb.
      + apply Nat.eqb_eq in Hu. subst i. now apply nth_inside_flags in Hc.
    - apply existsb_exists. eauto. }
  split.
  - unfold triangles. cbn [faces vertices]. rewrite map_map.
    apply map_ext_in. intros [[a b] c] Hin. unfold face_corners. cbn [vertices].
    rewrite !(index_of_nth (fun i => nth i (vertices m) origin)); [reflexivity| | |].
    + apply (Hused (a, b, c)); [exact Hin|]. unfold face_uses.
      now rewrite Nat.eqb_refl, !orb_true_r.
    + apply (Hused (a, b, c)); [exact Hin|]. unfold face_uses.
      now rewrite Nat.eqb_refl, orb_true_r.
    + apply (Hused (a, b, c)); [exact Hin|]. unfold face_uses.
      now rewrite Nat.eqb_refl.
  - cbn [vertices]. apply Forall_forall. intros v Hv.
    apply in_map_iff in Hv as (i & <- & Hi).
    unfold used in Hi. apply filter_In in Hi as [_ Hex].
    apply existsb_exists in Hex as (f & Hin & Hu).
    specialize (Hkept f Hin). destruct f as [[a b] c].
    destruct Hkept as (Ha & Hb & Hc).
    unfold face_uses in Hu. apply orb_true_iff in Hu as [Hu | Hu].
    + apply orb_true_iff in Hu as [Hu | Hu]; apply Nat.eqb_eq in Hu; subst i;
        [now apply nth_inside_flags in Ha | now apply nth_inside_flags in Hb].
    + apply Nat.eqb_eq in Hu. subst i. now apply nth_inside_flags in Hc.
Qed.

Lemma corners_flag_iff (lo hi : Point3) (m : Mesh) (f : nat * nat * nat) :
  (let '(a, b, c) := f in
   (a < length (vertices m) /\ b < length (vertices m) /\ c < length (vertices m))%nat) ->
  corners_flag (inside_flags lo hi (vertices m)) f = true
  <-> triangle_in_box lo hi (face_corners m f).
Proof.
  destruct f as [[a b] c]. intros (Ha & Hb & Hc).
  unfold corners_flag, triangle_in_box, face_corners.
  assert (Hn : forall i, (i < length (vertices m))%nat ->
             nth i (inside_flags lo hi (vertices m)) false = true
             <-> in_closed_box lo hi (nth i (vertices m) origin)).
  { intros i Hi. rewrite <- vertex_inside_iff. unfold inside_flags.
    rewrite (nth_indep _ false (vertex_inside lo hi origin))
      by (now rewrite length_map).
    now rewrite map_nth. }
  rewrite !andb_true_iff, !Hn by assumption. tauto.
Qed.

Section LoopProperties.
Context {Engine Callback : Type} {T : Trimesh Engine}.

#[local] Abbreviation W := (World Engine Callback).



(** What one pass through the loop body leaves behind. *)
Lemma slice_cell_effect (mesh : loc) (fallback : string) (tol : Q)
      (progress : option Callback) (total idx : nat) (c : Cell)
      (w w' : W) (r : Res unit) :
  slice_cell mesh fallback tol progress total idx c w = (r, w') ->
  exists added kept mid,
    heap w' = heap w ++ added
    /\ engine w' = snd (exact_outcome w mesh c)
    /\ scene w' = scene w ++ kept
    /\ ((kept = [] /\ mid = [])
        \/ exists p, kept = [(chunk_name (cidx c), p)]
                     /\ mid = [EvAdd p (chunk_name (cidx c))]
                     /\ (p < length (heap w'))%nat
                     /\ tol <= volume (deref (heap w') p))
    /\ trace w' = trace w ++ EvIntersect mesh (cell_box c) :: mid
                  ++ match r with
                     | Ok _ => report_events progress idx total
                     | Raise _ => []
                     end
    /\ match r with
       | Ok _ => exists o, cell_fragment w mesh c fallback = Ok o
       | Raise e => cell_fragment w mesh c fallback = Raise e
       end.
Proof.
  rewrite slice_cell_run. cbv zeta.
  destruct (cell_fragment w mesh c fallback) as [[part|] | e] eqn:Hfrag.
  - destruct (Qle_bool tol (volume part)) eqn:Hvol; intros [= <- <-];
      cbn [heap engine scene trace].
    + exists [part], [(chunk_name (cidx c), length (heap w))],
        [EvAdd (length (heap w)) (chunk_name (cidx c))].
      split; [reflexivity|]. split; [reflexivity|]. split; [reflexivity|].
      split; [|split; [|eauto]].
      * right. eexists. split; [reflexivity|]. split; [reflexivity|]. split.
        -- rewrite length_app. simpl. lia.
        -- rewrite deref_app_new. now apply Qle_bool_iff.
      * now rewrite <- !app_assoc.
    + exists [part], [], [].
      split; [reflexivity|]. split; [reflexivity|]. split; [now rewrite app_nil_r|].
      split; [now left|]. split; [|eauto].
      now rewrite <- app_assoc.
  - intros [= <- <-]; cbn [heap engine scene trace]. exists [], [], [].
    rewrite !app_nil_r.
    split; [reflexivity|]. split; [reflexivity|]. split; [reflexivity|].
    split; [now left|]. split; [|eauto].
    now rewrite <- app_assoc.
  - intros [= <- <-]; cbn [heap engine scene trace]. exists [], [], [].
    rewrite !app_nil_r.
    split; [reflexivity|]. split; [reflexivity|]. split; [reflexivity|].
    split; [now left|]. split; reflexivity.
Qed.

Lemma slice_cells_cons (mesh : loc) (fallback : string) (tol : Q)
      (progress : option Callback) (total idx : nat) (c : Cell) (rest : list Cell) (w : W) :
  slice_cells mesh fallback tol progress total idx (c :: rest) w
  = match slice_cell mesh fallback tol progress total idx c w with
    | (Ok _, w1) => slice_cells mesh fallback tol progress total (S idx) rest w1
    | (Raise e, w1) => (Raise e, w1)
    end.
Proof. reflexivity. Qed.

(** Whatever the outcome, the loop only appends to the store and to the
    scene; the names it adds are names of the cells, in cell order, and
    every added fragment has volume at least [tol]. *)
Lemma slice_cells_effect (mesh : loc) (fallback : string) (tol : Q)
      (progress : option Callback) (total : nat) (cells : list Cell) :
  forall (idx : nat) (w w' : W) (r : Res unit),
    slice_cells mesh fallback tol progress total idx cells w = (r, w') ->
    exists added ks,
      heap w' = heap w ++ added
      /\ scene w' = scene w ++ ks
      /\ Subseq (map fst ks) (map (fun c => chunk_name (cidx c)) cells)
      /\ Forall (fun e => (snd e < length (heap w'))%nat
                          /\ tol <= volume (deref (heap w') (snd e))) ks.
Proof.
  induction cells as [|c rest IH]; intros idx w w' r Hrun.
  - injection Hrun as <- <-. exists [], []. rewrite !app_nil_r.
    repeat split; constructor.
  - rewrite slice_cells_cons in Hrun.
    destruct (slice_cell mesh fallback tol progress total idx c w) as [r1 w1] eqn:Hcell.
    apply slice_cell_effect in Hcell
      as (added1 & kept & mid & Hheap & _ & Hscene & Hkept & _ & _).
    assert (Hrest : exists added2 ks2,
               heap w' = heap w1 ++ added2
               /\ scene w' = scene w1 ++ ks2
               /\ Subseq (map fst ks2) (map (fun c => chunk_name (cidx c)) rest)
               /\ Forall (fun e => (snd e < length (heap w'))%nat
                                   /\ tol <= volume (deref (heap w') (snd e))) ks2).
    { destruct r1 as [[] | e].
      - eapply IH; eassumption.
      - injection Hrun as <- <-. exists [], []. rewrite !app_nil_r.
        repeat split; [clear; induction rest; constructor; assumption | constructor]. }
    destruct Hrest as (added2 & ks2 & Hheap2 & Hscene2 & Hsub & Hvol).
    exists (added1 ++ added2), (kept ++ ks2).
    split; [now rewrite Hheap2, Hheap, app_assoc|].
    split; [now rewrite Hscene2, Hscene, app_assoc|].
    destruct Hkept as [[-> _] | (p & -> & _ & Hp & Hv)]; cbn [app map fst].
    + split; [now constructor | exact Hvol].
    + split; [now constructor|]. constructor; [|exact Hvol]. cbn [snd].
      rewrite Hheap2, length_app, deref_app_old by exact Hp. split; [lia | exact Hv].
Qed.


End LoopProperties.

(** ** Node names *)

Lemma string_of_uint_no_underscore (d : Decimal.uint) :
  no_underscore (NilEmpty.string_of_uint d).
Proof. induction d; simpl; (exact I || (split; [discriminate | assumption])). Qed.

Lemma decimal_inj (n n' : nat) : decimal n = decimal n' -> n = n'.
Proof.
  unfold decimal. intros H.
  apply (f_equal NilEmpty.uint_of_string) in H.
  rewrite !NilEmpty.usu in H. injection H as H.
  apply (f_equal Nat.of_uint) in H.
  now rewrite !DecimalNat.Unsigned.of_to in H.
Qed.

Lemma underscore_split_unique (a a' r r' : string) :
  no_underscore a -> no_underscore a' ->
  (a ++ String "_" r = a' ++ String "_" r')%string ->
  a = a' /\ r = r'.
Proof.
  revert a'. induction a as [|ch a IH]; intros [|ch' a'] Ha Ha' H; simpl in *.
  - injection H as H. auto.
  - injection H as H1 H2. destruct Ha' as [Hch _]. congruence.
  - injection H as H1 H2. destruct Ha as [Hch _]. congruence.
  - injection H as H1 H2. destruct Ha as [_ Ha]. destruct Ha' as [_ Ha'].
    destruct (IH a' Ha Ha' H2) as [-> ->]. subst. auto.
Qed.

Lemma chunk_name_inj (i j : nat * nat * nat) : chunk_name i = chunk_name j -> i = j.
Proof.
  destruct i as [[a b] c], j as [[a' b'] c']. unfold chunk_name.
  intros H. cbn [String.append] in H.
  injection H as H.
  apply underscore_split_unique in H as [Ha H];
    [|apply string_of_uint_no_underscore..].
  apply underscore_split_unique in H as [Hb Hc];
    [|apply string_of_uint_no_underscore..].
  apply decimal_inj in Ha, Hb, Hc. congruence.
Qed.

Lemma Subseq_In {A : Type} (ks l : list A) (x : A) : Subseq ks l -> In x ks -> In x l.
Proof.
  induction 1 as [|y ks l _ IH|y ks l _ IH]; simpl; intros Hin; auto.
  destruct Hin; auto.
Qed.

Lemma Subseq_NoDup {A : Type} (ks l : list A) : Subseq ks l -> NoDup l -> NoDup ks.
Proof.
  induction 1 as [|y ks l Hs IH|y ks l Hs IH]; intros Hnd.
  - constructor.
  - inversion Hnd; auto.
  - inversion Hnd as [|? ? Hnotin Hnd']; subst. constructor; auto.
    intros Hin. apply Hnotin. eapply Subseq_In; eassumption.
Qed.

Lemma NoDup_flat_map {A B : Type} (f : A -> list B) (l : list A) :
  NoDup l ->
  (forall a, In a l -> NoDup (f a)) ->
  (forall a a' x, In a l -> In a' l -> In x (f a) -> In x (f a') -> a = a') ->
  NoDup (flat_map f l).
Proof.
  induction 1 as [|a l Hnotin Hnd IH]; intros Hf Hdisj; simpl; [constructor|].
  apply NoDup_app.
  - apply Hf. now left.
  - apply IH; [intros; apply Hf; now right|].
    intros; eapply Hdisj; eauto; now right.
  - intros x Hx Hx'. apply in_flat_map in Hx' as (a' & Ha' & Hx').
    assert (a = a') by (eapply Hdisj; eauto; [now left | now right]).
    subst. contradiction.
Qed.

Lemma grid_cells_idx (xs ys zs : list Q) :
  map cidx (grid_cells xs ys zs)
  = flat_map (fun i =>
      flat_map (fun j => map (fun k => (i, j, k)) (seq 0 (length zs - 1)))
               (seq 0 (length ys - 1)))
      (seq 0 (length xs - 1)).
Proof.
  unfold grid_cells. rewrite !flat_map_concat_map, concat_map, map_map.
  f_equal. apply map_ext. intros i.
  rewrite !flat_map_concat_map, concat_map, map_map.
  f_equal. apply map_ext. intros j.
  rewrite map_map. reflexivity.
Qed.

Lemma grid_cells_idx_NoDup (xs ys zs : list Q) : NoDup (map cidx (grid_cells xs ys zs)).
Proof.
  rewrite grid_cells_idx.
  apply NoDup_flat_map; [apply seq_NoDup | |].
  - intros i _. apply NoDup_flat_map; [apply seq_NoDup | |].
    + intros j _. apply Finite.Injective_map_NoDup; [|apply seq_NoDup].
      intros k k' [= ->]. reflexivity.
    + intros j j' x _ _ Hx Hx'.
      apply in_map_iff in Hx as (k & <- & _).
      apply in_map_iff in Hx' as (k' & [= -> _] & _). reflexivity.
  - intros i i' x _ _ Hx Hx'.
    apply in_flat_map in Hx as (j & _ & Hx). apply in_map_iff in Hx as (k & <- & _).
    apply in_flat_map in Hx' as (j' & _ & Hx'). apply in_map_iff in Hx' as (k' & [= -> _ _] & _).
    reflexivity.
Qed.

Lemma build_grid_idx_NoDup (bounds : Point3 * Point3) (step : Point3) (cells : list Cell) :
  build_grid bounds step = Ok cells -> NoDup (map cidx cells).
Proof.
  unfold build_grid.
  destruct (axis_cuts bounds step AxX) as [xs|]; [|discriminate].
  destruct (axis_cuts bounds step AxY) as [ys|]; [|discriminate].
  destruct (axis_cuts bounds step AxZ) as [zs|]; [|discriminate].
  cbn [res_bind]. intros [= <-]. apply grid_cells_idx_NoDup.
Qed.

Lemma build_grid_names_NoDup (bounds : Point3 * Point3) (step : Point3) (cells : list Cell) :
  build_grid bounds step = Ok cells ->
  NoDup (map (fun c => chunk_name (cidx c)) cells).
Proof.
  intros H. apply build_grid_idx_NoDup in H.
  rewrite <- (map_map cidx chunk_name).
  apply Finite.Injective_map_NoDup; [|exact H].
  intros i j. apply chunk_name_inj.
Qed.

Section ClaimsOnTheLoop.
Context {Engine Callback : Type} {T : Trimesh Engine}.

#[local] Abbreviation W := (World Engine Callback).









(** C4.  In the loop body, a produced fragment is appended to the scene,
    under the cell's name, when its volume is at least [tol], and the scene
    is left as it was when its volume is below [tol]; and over the whole
    loop every entry added to the scene has volume at least [tol]. *)
Theorem fragment_kept_iff_volume (mesh : loc) (fallback : string) (tol : Q)
        (progress : option Callback) (total idx : nat) :
  (forall (c : Cell) (w w' : W) (r : Res unit) (part : Mesh),
      slice_cell mesh fallback tol progress total idx c w = (r, w') ->
      cell_fragment w mesh c fallback = Ok (Some part) ->
      deref (heap w') (length (heap w)) = part
      /\ (tol <= volume part ->
          scene w' = scene w ++ [(chunk_name (cidx c), length (heap w))])
      /\ (volume part < tol -> scene w' = scene w))
  /\ (forall (cells : list Cell) (w w' : W) (r : Res unit),
        slice_cells mesh fallback tol progress total idx cells w = (r, w') ->
        exists ks,
          scene w' = scene w ++ ks
          /\ Forall (fun e => tol <= volume (deref (heap w') (snd e))) ks).
Proof.
  split.
  - intros c w w' r part Hrun Hfrag.
    rewrite slice_cell_run in Hrun. cbv zeta in Hrun. rewrite Hfrag in Hrun.
    destruct (Qle_bool tol (volume part)) eqn:Hvol; injection Hrun as <- <-;
      cbn [heap scene]; rewrite deref_app_new.
    + split; [reflexivity|]. split; [reflexivity|].
      apply Qle_bool_iff in Hvol. intros Hlt. exfalso. lra.
    + split; [reflexivity|]. split; [|reflexivity].
      intros Hle. apply Qle_bool_iff in Hle. congruence.
  - intros cells w w' r Hrun.
    destruct (slice_cells_effect _ _ _ _ _ _ _ _ _ _ Hrun) as (added & ks & _ & Hsc & _ & Hvol).
    exists ks. split; [exact Hsc|].
    eapply Forall_impl; [|exact Hvol]. now intros e [_ He].
Qed.

(** C3.  When the engine raises and the fallback is "planar", the fragment
    is a new object whose triangles are precisely the triangles of the
    input mesh with all three corners in the closed box of the cell, and
    all of whose vertices lie in that box. *)
Theorem planar_fallback_in_box (mesh : loc) (c : Cell) (w : W) (e : Exn) :
  faces_in_range (deref (heap w) mesh) ->
  fst (exact_outcome w mesh c) = Raise e ->
  exists frag w',
    clip_cell mesh c "planar" w = (Ok (Some (length (heap w))), w')
    /\ deref (heap w') (length (heap w)) = frag
    /\ (forall t,
          In t (triangles frag)
          <-> In t (triangles (deref (heap w) mesh))
              /\ triangle_in_box (cmin c) (cmax c) t)
    /\ Forall (in_closed_box (cmin c) (cmax c)) (vertices frag).
Proof.
  intros Hwf He.
  set (m := deref (heap w) mesh) in *.
  set (g := corners_flag (inside_flags (cmin c) (cmax c) (vertices m))).
  exists (submesh m (map g (faces m))).
  exists (mkWorld (heap w ++ [submesh m (map g (faces m))])
                  (snd (exact_outcome w mesh c)) (scene w)
                  (trace w ++ [EvIntersect mesh (cell_box c)])).
  split; [|split; [|split]].
  - unfold clip_cell, catch, bind, intersection.
    unfold exact_outcome in He |- *. fold m in He |- *.
    destruct (boolean_intersection (engine w) m (cell_box c)) as [[part | e1] e'];
      [discriminate He|].
    unfold planar_fallback. cbn [String.eqb Ascii.eqb Bool.eqb].
    unfold bind, read, lift. cbn [heap]. fold m.
    rewrite face_mask_ok by (unfold inside_flags; rewrite length_map; exact Hwf).
    fold g. reflexivity.
  - cbn [heap]. apply deref_app_new.
  - intros t.
    destruct (submesh_of_mask (cmin c) (cmax c) m) as [Htri _]. fold g in Htri.
    rewrite Htri. unfold triangles. rewrite !in_map_iff. split.
    + intros (f & <- & Hin). apply filter_In in Hin as [Hin Hg].
      split; [eauto|].
      apply corners_flag_iff; [|exact Hg].
      unfold faces_in_range in Hwf. rewrite Forall_forall in Hwf. now apply Hwf.
    + intros [(f & <- & Hin) Hbox]. exists f. split; [reflexivity|].
      apply filter_In. split; [exact Hin|].
      apply corners_flag_iff; [|exact Hbox].
      unfold faces_in_range in Hwf. rewrite Forall_forall in Hwf. now apply Hwf.
  - destruct (submesh_of_mask (cmin c) (cmax c) m) as [_ Hv]. exact Hv.
Qed.
End ClaimsOnTheLoop.

Section ClaimsOnTheWholeRun.
Context {Engine Callback : Type} {T : Trimesh Engine}.

#[local] Abbreviation W := (World Engine Callback).

Lemma update_at_app_new (h : list Mesh) (m : Mesh) (f : Mesh -> Mesh) :
  update_at (h ++ [m]) (length h) f = h ++ [f m].
Proof. induction h as [|x h IH]; simpl; [reflexivity | now rewrite IH]. Qed.

Lemma repair_mesh_run (mesh : loc) (w : W) :
  repair_mesh mesh w
  = (Ok (length (heap w)),
     mkWorld (heap w ++ [repaired (deref (heap w) mesh)])
             (engine w) (scene w) (trace w)).
Proof.
  unfold repair_mesh, bind, read, alloc, mutate, ret, repaired.
  cbn [heap engine scene trace]. rewrite !update_at_app_new. reflexivity.
Qed.

(** The store and the scene after a whole run, whatever its outcome. *)
Lemma slice_to_single_effect (input_path : string) (size : Point3) (merged_path : string)
      (repair : bool) (fallback : string) (tol : Q) (progress : option Callback)
      (w w' : W) (r : Res unit) :
  slice_to_single input_path size merged_path repair fallback tol progress w = (r, w') ->
  (exists added,
      heap w' = heap w ++ added
      /\ forall loaded, load_mesh input_path = Ok loaded ->
                        exists rest, added = loaded :: rest)
  /\ (scene w = [] -> NoDup (map fst (scene w'))).
Proof.
  unfold slice_to_single, bind at 1, lift at 1.
  destruct (load_mesh input_path) as [loaded | e0].
  2:{ intros [= <- <-]. split.
      - exists []. rewrite app_nil_r. split; [reflexivity | discriminate].
      - intros ->. constructor. }
  unfold bind at 1, alloc at 1.
  set (w0 := mkWorld (heap w ++ [loaded]) (engine w) (scene w) (trace w)).
  unfold bind at 1.
  match goal with
  | |- context [(if ?b then ?x else ?y) w0] =>
      assert (Hmesh : exists mesh extra w1,
                 (if b then x else y) w0 = (Ok mesh, w1)
                 /\ heap w1 = heap w ++ loaded :: extra)
  end.
  { destruct (repair && negb (is_watertight loaded)).
    - rewrite repair_mesh_run. do 3 eexists. split; [reflexivity|].
      cbn [heap w0]. now rewrite <- app_assoc.
    - exists (length (heap w)), [], w0. split; reflexivity. }
  destruct Hmesh as (mesh & extra & w1 & -> & Hheap1).
  unfold bind at 1, new_scene at 1, bind at 1, read at 1. cbn [heap].
  set (w2 := mkWorld (heap w1) (engine w1) [] (trace w1)).
  unfold bind at 1.
  destruct (mesh_bounds (deref (heap w1) mesh)) as [bounds|].
  2:{ intros [= <- <-]. cbn [heap scene]. split.
      - exists (loaded :: extra). split; [exact Hheap1|].
        intros ? [= <-]. eauto.
      - intros _. constructor. }
  unfold ret at 1, bind at 1, lift at 1.
  destruct (build_grid bounds size) as [cells | e2] eqn:Hgrid.
  2:{ intros [= <- <-]. cbn [heap scene]. split.
      - exists (loaded :: extra). split; [exact Hheap1|].
        intros ? [= <-]. eauto.
      - intros _. constructor. }
  unfold bind at 1.
  destruct (slice_cells mesh fallback tol progress (length cells) 1 cells w2)
    as [r3 w3] eqn:Hloop.
  apply slice_cells_effect in Hloop as (added & ks & Hheap3 & Hscene3 & Hsub & _).
  cbn [heap scene w2] in Hheap3, Hscene3.
  assert (Hend : heap w3 = heap w ++ loaded :: extra ++ added
                 /\ NoDup (map fst (scene w3))).
  { split.
    - rewrite Hheap3, Hheap1, <- app_assoc. reflexivity.
    - rewrite Hscene3. eapply Subseq_NoDup; [exact Hsub|].
      eapply build_grid_names_NoDup; eassumption. }
  destruct Hend as [Hheap Hnd]. intros H.
  assert (Hfinal : heap w' = heap w3 /\ scene w' = scene w3).
  { destruct r3 as [[] | e3].
    - revert H. unfold export.
      destruct (scene_export _ merged_path); intros [= <- <-]; split; reflexivity.
    - injection H as <- <-. split; reflexivity. }
  destruct Hfinal as [-> ->]. split.
  - exists (loaded :: extra ++ added). split; [exact Hheap|].
    intros ? [= <-]. eauto.
  - intros _. exact Hnd.
Qed.

(** C9.  [repair_mesh] allocates a new mesh, repairs that one, and returns
    it: every object already in the store, its argument included, is left
    as it was.  The loop of [slice_to_single], and [slice_to_single] as a
    whole, only append new objects to the store: the mesh handed to the
    loop and the loaded mesh keep their content to the end. *)
Theorem input_mesh_never_mutated :
  (forall (mesh : loc) (w : W),
      exists w',
        repair_mesh mesh w = (Ok (length (heap w)), w')
        /\ heap w' = heap w ++ [repaired (deref (heap w) mesh)]
        /\ forall l, (l < length (heap w))%nat -> deref (heap w') l = deref (heap w) l)
  /\ (forall mesh fallback tol progress total idx cells (w w' : W) r,
        slice_cells mesh fallback tol progress total idx cells w = (r, w') ->
        forall l, (l < length (heap w))%nat -> deref (heap w') l = deref (heap w) l)
  /\ (forall input_path size merged_path repair fallback tol progress (w w' : W) r,
        slice_to_single input_path size merged_path repair fallback tol progress w = (r, w') ->
        (forall l, (l < length (heap w))%nat -> deref (heap w') l = deref (heap w) l)
        /\ forall loaded, load_mesh input_path = Ok loaded ->
                          deref (heap w') (length (heap w)) = loaded).
Proof.
  split; [|split].
  - intros mesh w. eexists. split; [apply repair_mesh_run|]. cbn [heap].
    split; [reflexivity|]. intros l Hl. now apply deref_app_old.
  - intros mesh fallback tol progress total idx cells w w' r Hrun l Hl.
    apply slice_cells_effect in Hrun as (added & _ & -> & _).
    now apply deref_app_old.
  - intros input_path size merged_path repair fallback tol progress w w' r Hrun.
    apply slice_to_single_effect in Hrun as [(added & -> & Hload) _].
    split.
    + intros l Hl. now apply deref_app_old.
    + intros loaded Hl. destruct (Hload loaded Hl) as [rest ->].
      unfold deref. now rewrite nth_middle.
Qed.

(** C10.  The index triples of the cells of a grid are pairwise distinct,
    the names [chunk_i_j_k] determine the triple, and so the node names in
    the scene built by [slice_to_single] are pairwise distinct. *)
Theorem chunk_names_distinct :
  (forall bounds step cells,
      build_grid bounds step = Ok cells -> NoDup (map cidx cells))
  /\ (forall i j, chunk_name i = chunk_name j -> i = j)
  /\ (forall input_path size merged_path repair fallback tol progress (w w' : W) r,
        scene w = [] ->
        slice_to_single input_path size merged_path repair fallback tol progress w = (r, w') ->
        NoDup (map fst (scene w'))).
Proof.
  split; [exact build_grid_idx_NoDup|]. split; [exact chunk_name_inj|].
  intros input_path size merged_path repair fallback tol progress w w' r Hsc Hrun.
  apply slice_to_single_effect in Hrun as [_ Hnd]. now apply Hnd.
Qed.
End ClaimsOnTheWholeRun.

(** ** The command line *)

Lemma parse_args_fallback_choice (float : string -> option Q) (argv : list string) :
  forall ns ns',
    parse_args float argv ns = Some ns' ->
    ns_fallback ns' = ns_fallback ns
    \/ ns_fallback ns' = "none"%string \/ ns_fallback ns' = "planar"%string.
Proof.
  induction argv as [argv IH] using (well_founded_induction
                                      (Wf_nat.well_founded_ltof _ (@length string))).
  intros ns ns'. destruct argv as [|opt rest]; [intros [= <-]; now left|].
  assert (IH' : forall rest' ns0,
             (length rest' <= length rest)%nat ->
             parse_args float rest' ns0 = Some ns' ->
             ns_fallback ns' = ns_fallback ns0
             \/ ns_fallback ns' = "none"%string \/ ns_fallback ns' = "planar"%string).
  { intros rest' ns0 Hlen. apply IH. unfold Wf_nat.ltof. simpl. lia. }
  cbn [parse_args].
  destruct (String.eqb opt "--input").
  { destruct rest as [|v rest']; [discriminate|].
    intros H. apply IH' in H; [exact H | simpl; lia]. }
  destruct (String.eqb opt "--size").
  { destruct rest as [|a [|b [|c rest']]]; try discriminate.
    destruct (float a), (float b), (float c); try discriminate.
    intros H. apply IH' in H; [exact H | simpl; lia]. }
  destruct (String.eqb opt "--merged").
  { destruct rest as [|v rest']; [discriminate|].
    intros H. apply IH' in H; [exact H | simpl; lia]. }
  destruct (String.eqb opt "--repair").
  { intros H. apply IH' in H; [exact H | lia]. }
  destruct (String.eqb opt "--fallback").
  { destruct rest as [|v rest']; [discriminate|].
    destruct (String.eqb v "none") eqn:En; cbn [orb].
    - apply String.eqb_eq in En. subst v.
      intros H. apply IH' in H; [|simpl; lia]. cbn [ns_fallback] in H. tauto.
    - destruct (String.eqb v "planar") eqn:Ep; [|discriminate].
      apply String.eqb_eq in Ep. subst v.
      intros H. apply IH' in H; [|simpl; lia]. cbn [ns_fallback] in H. tauto. }
  destruct (String.eqb opt "--gui"); [|discriminate].
  intros H. apply IH' in H; [exact H | lia].
Qed.

(** Whatever the arguments, a call made by [main] has fallback "planar". *)
Lemma main_always_planar (float : string -> option Q) (argv : list string)
      (call : SliceCall) (printed : string) :
  main float argv = Finished call printed -> sc_fallback call = "planar"%string.
Proof.
  unfold main. destruct (parse_args float argv build_parser) as [args|]; [|discriminate].
  destruct (ns_gui args); [discriminate|].
  destruct (ns_input args), (ns_size args), (ns_merged args); try discriminate.
  intros [= <- _]. reflexivity.
Qed.

(** C8 fails on the code.  The parser accepts [--fallback none] and stores
    "none" in the namespace, and [main] then calls [slice_to_single] without
    the fallback argument, so the split runs with the default "planar": with
    a boolean engine that raises, the scene gets the planar fragment, where
    a run with fallback "none" leaves it empty. *)
Theorem main_fallback_none_runs_planar :
  let argv := ["--input"; "model.stl"; "--size"; "250"; "250"; "250";
               "--merged"; "out.3mf"; "--fallback"; "none"]%string in
  let call := mkSliceCall "model.stl" [250; 250; 250] "out.3mf" false "planar" default_tol in
  let wanted := mkSliceCall "model.stl" [250; 250; 250] "out.3mf" false "none" default_tol in
  (exists args,
      parse_args float_of_digits argv build_parser = Some args
      /\ ns_fallback args = "none"%string)
  /\ main float_of_digits argv = Finished call "out.3mf"
  /\ scene (snd (perform call start_world)) = [("chunk_0_0_0"%string, 2%nat)]
  /\ scene (snd (perform wanted start_world)) = [].
Proof.
  cbv zeta. split; [|split; [|split]].
  - eexists. split; reflexivity.
  - reflexivity.
  - vm_compute. reflexivity.
  - vm_compute. reflexivity.
Qed.

(** ** The claims at a concrete run

    [corner_mesh] in a store of its own, a library whose boolean engine
    always raises, and the cells [unit_cell] and [far_cell]. *)


Lemma planar_fallback_in_box_witness :
  exists frag w',
    clip_cell 0 unit_cell "planar" start_world = (Ok (Some (length (heap start_world))), w')
    /\ deref (heap w') (length (heap start_world)) = frag
    /\ (forall t,
          In t (triangles frag)
          <-> In t (triangles (deref (heap start_world) 0))
              /\ triangle_in_box (cmin unit_cell) (cmax unit_cell) t)
    /\ Forall (in_closed_box (cmin unit_cell) (cmax unit_cell)) (vertices frag).
Proof.
  apply (planar_fallback_in_box 0 unit_cell start_world (EngineError "no backend")).
  - unfold faces_in_range. simpl. repeat (constructor; try lia).
  - reflexivity.
Defined.

Lemma fragment_kept_iff_volume_witness :
  exists part w',
    slice_cell 0 "planar" 1 (Some tt) 2 1 unit_cell start_world = (Ok tt, w')
    /\ deref (heap w') (length (heap start_world)) = part
    /\ (1 <= volume part ->
        scene w' = scene start_world ++ [(chunk_name (cidx unit_cell), length (heap start_world))])
    /\ (volume part < 1 -> scene w' = scene start_world).
Proof.
  eexists. eexists. split; [reflexivity|].
  apply (proj1 (fragment_kept_iff_volume 0 "planar" 1 (Some tt) 2 1)
               unit_cell start_world _ (Ok tt)); reflexivity.
Defined.


Lemma input_mesh_never_mutated_witness :
  let run := slice_to_single "model.stl" (2, 2, 2) "out.3mf" true "planar" 1 (Some tt)
                             start_world in
  deref (heap (snd run)) 0 = deref (heap start_world) 0
  /\ deref (heap (snd run)) (length (heap start_world)) = corner_mesh.
Proof.
  cbv zeta.
  destruct (proj2 (proj2 (input_mesh_never_mutated (Callback := unit)))
                  "model.stl"%string (2, 2, 2) "out.3mf"%string true "planar"%string 1
                  (Some tt) start_world
                  (snd (slice_to_single "model.stl" (2, 2, 2) "out.3mf" true
                                        "planar" 1 (Some tt) start_world))
                  (fst (slice_to_single "model.stl" (2, 2, 2) "out.3mf" true
                                        "planar" 1 (Some tt) start_world))
                  (surjective_pairing _))
    as [Hold Hloaded].
  split.
  - apply Hold. simpl. lia.
  - apply Hloaded. reflexivity.
Defined.

Lemma chunk_names_distinct_witness :
  NoDup (map fst (scene (snd (slice_to_single "model.stl" (2, 2, 2) "out.3mf" true
                                              "planar" 1 (Some tt) start_world)))).
Proof.
  apply (proj2 (proj2 (chunk_names_distinct (Callback := unit)))
               "model.stl"%string (2, 2, 2) "out.3mf"%string true "planar"%string 1
               (Some tt) start_world _
               (fst (slice_to_single "model.stl" (2, 2, 2) "out.3mf" true
                                     "planar" 1 (Some tt) start_world))).
  - reflexivity.
  - apply surjective_pairing.
Defined.

(** The same run, evaluated: both cells are tried, the four faces of
    [corner_mesh] inside [unit_cell] are kept, and the callback is told
    [(1, 2)] and [(2, 2)]. *)
Example sample_run :
  let w' := snd (slice_cells 0 "planar" 1 (Some tt) 2 1 [unit_cell; far_cell] start_world) in
  scene w' = [("chunk_0_0_0"%string, 1%nat)]
  /\ length (faces (deref (heap w') 1)) = 4%nat
  /\ reports (trace w') = [(tt, 1%nat, 2%nat); (tt, 2%nat, 2%nat)]
  /\ engine w' = 2%nat.
Proof. vm_compute. repeat split. Qed.

(* ================================================================== *)
(** * Further properties of the grid *)














Lemma StronglySorted_app {A : Type} (R : A -> A -> Prop) (l1 l2 : list A) :
  StronglySorted R l1 -> StronglySorted R l2 ->
  (forall x y, In x l1 -> In y l2 -> R x y) ->
  StronglySorted R (l1 ++ l2).
Proof.
  induction 1 as [|x l1 Hs IH Hall]; intros H2 Hcross; simpl; [exact H2|].
  constructor.
  - apply IH; [exact H2|]. intros; apply Hcross; [now right | assumption].
  - apply Forall_app. split; [exact Hall|].
    apply Forall_forall. intros y Hy. apply Hcross; [now left | exact Hy].
Qed.

Lemma StronglySorted_flat_map {A B : Type} (RA : A -> A -> Prop) (RB : B -> B -> Prop)
      (f : A -> list B) (l : list A) :
  StronglySorted RA l ->
  (forall a, StronglySorted RB (f a)) ->
  (forall a a' x y, RA a a' -> In x (f a) -> In y (f a') -> RB x y) ->
  StronglySorted RB (flat_map f l).
Proof.
  intros Hl Hf Hcross. induction Hl as [|a l Hs IH Hall]; simpl; [constructor|].
  apply StronglySorted_app; [apply Hf | exact IH|].
  intros x y Hx Hy. apply in_flat_map in Hy as (a' & Ha' & Hy).
  rewrite Forall_forall in Hall. eapply Hcross; eauto.
Qed.

Lemma StronglySorted_map {A B : Type} (RA : A -> A -> Prop) (RB : B -> B -> Prop)
      (g : A -> B) (l : list A) :
  (forall a a', RA a a' -> RB (g a) (g a')) ->
  StronglySorted RA l -> StronglySorted RB (map g l).
Proof.
  intros Hg. induction 1 as [|a l Hs IH Hall]; simpl; constructor; [exact IH|].
  apply Forall_map. eapply Forall_impl; [|exact Hall]. intros a'. apply Hg.
Qed.

Lemma seq_StronglySorted (start len : nat) : StronglySorted lt (seq start len).
Proof.
  revert start. induction len as [|len IH]; intros start; simpl; constructor; [apply IH|].
  apply Forall_forall. intros x Hx. apply in_seq in Hx. lia.
Qed.

(** X5.  The cells are listed in row-major order: their index triples
    increase strictly in the lexicographic order with [i] outermost and [k]
    innermost. *)
Theorem build_grid_row_major (bounds : Point3 * Point3) (step : Point3) (cells : list Cell) :
  build_grid bounds step = Ok cells ->
  StronglySorted idx_lt (map cidx cells).
Proof.
  unfold build_grid.
  destruct (axis_cuts bounds step AxX) as [xs|]; [|discriminate].
  destruct (axis_cuts bounds step AxY) as [ys|]; [|discriminate].
  destruct (axis_cuts bounds step AxZ) as [zs|]; [|discriminate].
  cbn [res_bind]. intros [= <-]. rewrite grid_cells_idx.
  apply (StronglySorted_flat_map lt); [apply seq_StronglySorted | |].
  - intros i. apply (StronglySorted_flat_map lt); [apply seq_StronglySorted | |].
    + intros j. apply (StronglySorted_map lt); [|apply seq_StronglySorted].
      intros k k' Hk. cbn. lia.
    + intros j j' x y Hj Hx Hy.
      apply in_map_iff in Hx as (k & <- & _). apply in_map_iff in Hy as (k' & <- & _).
      cbn. lia.
  - intros i i' x y Hi Hx Hy.
    apply in_flat_map in Hx as (j & _ & Hx). apply in_map_iff in Hx as (k & <- & _).
    apply in_flat_map in Hy as (j' & _ & Hy). apply in_map_iff in Hy as (k' & <- & _).
    cbn. lia.
Qed.

Lemma build_grid_row_major_witness :
  exists cells,
    build_grid (origin, unit_corner) step_06 = Ok cells
    /\ StronglySorted idx_lt (map cidx cells).
Proof.
  eexists. split; [reflexivity|].
  apply (build_grid_row_major (origin, unit_corner) step_06). reflexivity.
Defined.

(* ================================================================== *)
(** * Further properties of the run *)

Section RunProperties.
Context {Engine Callback : Type} {T : Trimesh Engine}.

#[local] Abbreviation W := (World Engine Callback).

(** [slice_to_single] up to its loop. *)
Lemma slice_to_single_run (input_path : string) (size : Point3) (merged_path : string)
      (repair : bool) (fallback : string) (tol : Q) (progress : option Callback) (w : W) :
  slice_to_single input_path size merged_path repair fallback tol progress w
  = match load_mesh input_path with
    | Raise e => (Raise e, w)
    | Ok loaded =>
        let w2 := loop_start repair loaded w in
        match mesh_bounds (working_mesh repair loaded) with
        | None => (Raise TypeError, w2)
        | Some bounds =>
            match build_grid bounds size with
            | Raise e => (Raise e, w2)
            | Ok cells =>
                (slice_cells (working_loc repair loaded (length (heap w)))
                             fallback tol progress (length cells) 1 cells ;;;
                 export merged_path) w2
            end
        end
    end.
Proof.
  unfold slice_to_single, bind at 1, lift at 1.
  destruct (load_mesh input_path) as [loaded | e0]; [|reflexivity].
  unfold bind at 1, alloc at 1, bind at 1.
  unfold loop_start, working_mesh, working_loc, repair_needed.
  destruct (repair && negb (is_watertight loaded)).
  - rewrite repair_mesh_run. cbn [heap engine scene trace].
    rewrite deref_app_new, length_app. cbn [length].
    replace (length (heap w) + 1)%nat with (S (length (heap w))) by lia.
    unfold bind at 1, new_scene at 1, bind at 1, read at 1. cbn [heap engine scene trace].
    replace (S (length (heap w))) with (length (heap w ++ [loaded])) at 1
      by (rewrite length_app; simpl; lia).
    rewrite deref_app_new, <- app_assoc. cbn [app].
    unfold bind at 1.
    destruct (mesh_bounds (repaired loaded)) as [bounds|]; [|reflexivity].
    unfold ret at 1, bind at 1, lift at 1.
    destruct (build_grid bounds size); reflexivity.
  - unfold ret at 1, bind at 1, new_scene at 1, bind at 1, read at 1.
    cbn [heap engine scene trace]. rewrite deref_app_new.
    unfold bind at 1.
    destruct (mesh_bounds loaded) as [bounds|]; [|reflexivity].
    unfold ret at 1, bind at 1, lift at 1.
    destruct (build_grid bounds size); reflexivity.
Qed.

End RunProperties.

Section RunClaims.
Context {Engine Callback : Type} {T : Trimesh Engine}.

#[local] Abbreviation W := (World Engine Callback).

Lemma exports_app (tr1 tr2 : list (Event Callback)) :
  exports (tr1 ++ tr2) = exports tr1 ++ exports tr2.
Proof. unfold exports. apply flat_map_app. Qed.

Lemma slice_cell_no_export (mesh : loc) (fallback : string) (tol : Q)
      (progress : option Callback) (total idx : nat) (c : Cell) (w w' : W) (r : Res unit) :
  slice_cell mesh fallback tol progress total idx c w = (r, w') ->
  exports (trace w') = exports (trace w).
Proof.
  intros H. apply slice_cell_effect in H as (added & kept & mid & _ & _ & _ & Hmid & Htr & _).
  rewrite Htr.
  change (EvIntersect mesh (cell_box c)
            :: mid ++ match r with
                      | Ok _ => report_events progress idx total
                      | Raise _ => []
                      end)
    with ([EvIntersect mesh (cell_box c)]
            ++ mid ++ match r with
                      | Ok _ => report_events progress idx total
                      | Raise _ => []
                      end).
  rewrite !exports_app.
  assert (Hm : exports mid = []) by (destruct Hmid as [[_ ->] | (p & _ & -> & _)]; reflexivity).
  rewrite Hm. destruct r; [destruct progress|]; cbn; now rewrite app_nil_r.
Qed.

Lemma slice_cells_no_export (mesh : loc) (fallback : string) (tol : Q)
      (progress : option Callback) (total : nat) (cells : list Cell) :
  forall (idx : nat) (w w' : W) (r : Res unit),
    slice_cells mesh fallback tol progress total idx cells w = (r, w') ->
    exports (trace w') = exports (trace w).
Proof.
  induction cells as [|c rest IH]; intros idx w w' r Hrun.
  - now injection Hrun as <- <-.
  - rewrite slice_cells_cons in Hrun.
    destruct (slice_cell mesh fallback tol progress total idx c w) as [r1 w1] eqn:Hcell.
    apply slice_cell_no_export in Hcell. rewrite <- Hcell.
    destruct r1 as [[] | e]; [eapply IH; eassumption|].
    now injection Hrun as <- <-.
Qed.

(** X6.  A run that returns normally has exported once, as its last action,
    the content of the scene; a run that raises has exported nothing. *)
Theorem slice_to_single_exports_once (input_path : string) (size : Point3)
        (merged_path : string) (repair : bool) (fallback : string) (tol : Q)
        (progress : option Callback) (w w' : W) (r : Res unit) :
  slice_to_single input_path size merged_path repair fallback tol progress w = (r, w') ->
  match r with
  | Ok _ =>
      exists tr,
        trace w'
        = tr ++ [EvExport merged_path
                          (map (fun e => (fst e, deref (heap w') (snd e))) (scene w'))]
        /\ exports tr = exports (trace w)
  | Raise _ => exports (trace w') = exports (trace w)
  end.
Proof.
  rewrite slice_to_single_run.
  destruct (load_mesh input_path) as [loaded | e0]; [|intros [= <- <-]; reflexivity].
  cbv zeta.
  destruct (mesh_bounds (working_mesh repair loaded)) as [bounds|];
    [|intros [= <- <-]; reflexivity].
  destruct (build_grid bounds size) as [cells | e2]; [|intros [= <- <-]; reflexivity].
  unfold bind.
  destruct (slice_cells _ fallback tol progress (length cells) 1 cells
                        (loop_start repair loaded w)) as [r3 w3] eqn:Hloop.
  apply slice_cells_no_export in Hloop. cbn [loop_start trace] in Hloop.
  destruct r3 as [[] | e3]; [|intros [= <- <-]; exact Hloop].
  unfold export. destruct (scene_export _ merged_path); intros [= <- <-].
  - exists (trace w3). split; [reflexivity | exact Hloop].
  - exact Hloop.
Qed.




(** X8.  Failures before the loop are raised to the caller with nothing
    done: an unreadable mesh leaves the world as it was, and a mesh without
    bounds or a zero cell size raises before any engine call, callback
    invocation or export. *)
Theorem slice_to_single_fails_early (input_path : string) (size : Point3)
        (merged_path : string) (repair : bool) (fallback : string) (tol : Q)
        (progress : option Callback) (w : W) :
  (forall e, load_mesh input_path = Raise e ->
             slice_to_single input_path size merged_path repair fallback tol progress w
             = (Raise e, w))
  /\ (forall loaded,
        load_mesh input_path = Ok loaded ->
        mesh_bounds (working_mesh repair loaded) = None ->
        exists w',
          slice_to_single input_path size merged_path repair fallback tol progress w
          = (Raise TypeError, w')
          /\ trace w' = trace w /\ scene w' = [])
  /\ (forall loaded bounds a,
        load_mesh input_path = Ok loaded ->
        mesh_bounds (working_mesh repair loaded) = Some bounds ->
        coord size a == 0 ->
        exists w',
          slice_to_single input_path size merged_path repair fallback tol progress w
          = (Raise ValueError, w')
          /\ trace w' = trace w /\ scene w' = []).
Proof.
  split; [|split].
  - intros e Hload. now rewrite slice_to_single_run, Hload.
  - intros loaded Hload Hb. rewrite slice_to_single_run, Hload. cbv zeta. rewrite Hb.
    eexists. split; [reflexivity|]. split; reflexivity.
  - intros loaded bounds a Hload Hb Hz. rewrite slice_to_single_run, Hload. cbv zeta.
    rewrite Hb, (build_grid_zero_step bounds size a Hz).
    eexists. split; [reflexivity|]. split; reflexivity.
Qed.
End RunClaims.

Section CellClaims.
Context {Engine Callback : Type} {T : Trimesh Engine}.

#[local] Abbreviation W := (World Engine Callback).

(** X9.  When the exact intersection returns a mesh, the fallback mode plays
    no part: the loop body does the same for every fallback string, and the
    fragment it weighs is the mesh the engine returned. *)
Theorem exact_clip_ignores_fallback (mesh : loc) (tol : Q) (progress : option Callback)
        (total idx : nat) (c : Cell) (w : W) (part : Mesh) :
  fst (exact_outcome w mesh c) = Ok part ->
  forall fallback,
    slice_cell mesh fallback tol progress total idx c w
    = slice_cell mesh "none" tol progress total idx c w
    /\ cell_fragment w mesh c fallback = Ok (Some part)
    /\ deref (heap (snd (slice_cell mesh fallback tol progress total idx c w)))
             (length (heap w)) = part.
Proof.
  intros He fallback.
  assert (Hfrag : forall fb, cell_fragment w mesh c fb = Ok (Some part))
    by (intros fb; unfold cell_fragment; now rewrite He).
  split; [|split].
  - rewrite !slice_cell_run. cbv zeta. now rewrite !Hfrag.
  - apply Hfrag.
  - rewrite slice_cell_run. cbv zeta. rewrite Hfrag.
    destruct (Qle_bool tol (volume part)); cbn [snd heap]; apply deref_app_new.
Qed.

(** X10.  Only the string "planar" selects the fallback: with any other
    string the loop does what it does with "none". *)
Theorem other_fallback_is_none (mesh : loc) (fallback : string) (tol : Q)
        (progress : option Callback) (total : nat) (cells : list Cell) :
  fallback <> "planar"%string ->
  forall (idx : nat) (w : W),
    slice_cells mesh fallback tol progress total idx cells w
    = slice_cells mesh "none" tol progress total idx cells w.
Proof.
  intros Hfb.
  assert (Hcell : forall idx c w,
             slice_cell mesh fallback tol progress total idx c w
             = slice_cell mesh "none" tol progress total idx c w).
  { intros idx c w. rewrite !slice_cell_run. cbv zeta.
    assert (E : cell_fragment w mesh c fallback = cell_fragment w mesh c "none").
    { unfold cell_fragment, fallback_fragment.
      destruct (String.eqb fallback "planar") eqn:Eb; [|reflexivity].
      apply String.eqb_eq in Eb. contradiction. }
    now rewrite E. }
  induction cells as [|c rest IH]; intros idx w; [reflexivity|].
  rewrite !slice_cells_cons, Hcell.
  destruct (slice_cell mesh "none" tol progress total idx c w) as [[[]|e] w1];
    [apply IH | reflexivity].
Qed.

Lemma face_flag_out_of_range (inside : list bool) (f : nat * nat * nat) :
  (let '(a, b, c) := f in
   (length inside <= a \/ length inside <= b \/ length inside <= c)%nat) ->
  face_flag inside f = Raise IndexError.
Proof.
  destruct f as [[a b] c]. intros H. unfold face_flag.
  destruct (nth_error inside a) eqn:Ea; [|reflexivity].
  destruct (nth_error inside b) eqn:Eb; [|reflexivity].
  destruct (nth_error inside c) eqn:Ec; [|reflexivity].
  exfalso.
  assert (Ha : (a < length inside)%nat) by (apply nth_error_Some; congruence).
  assert (Hb : (b < length inside)%nat) by (apply nth_error_Some; congruence).
  assert (Hc : (c < length inside)%nat) by (apply nth_error_Some; congruence).
  lia.
Qed.

Lemma face_flag_cases (inside : list bool) (f : nat * nat * nat) :
  (exists b, face_flag inside f = Ok b) \/ face_flag inside f = Raise IndexError.
Proof.
  destruct f as [[a b] c]. unfold face_flag.
  destruct (nth_error inside a), (nth_error inside b), (nth_error inside c); eauto.
Qed.

Lemma face_mask_out_of_range (inside : list bool) (fs : list (nat * nat * nat)) :
  Exists (fun f => let '(a, b, c) := f in
                   (length inside <= a \/ length inside <= b \/ length inside <= c)%nat) fs ->
  face_mask inside fs = Raise IndexError.
Proof.
  induction 1 as [f fs Hf | f fs _ IH]; simpl.
  - now rewrite (face_flag_out_of_range _ _ Hf).
  - destruct (face_flag_cases inside f) as [[b ->] | ->]; [|reflexivity].
    cbn [res_bind]. now rewrite IH.
Qed.

(** X11.  An error in the fallback itself is not swallowed.  When the engine
    raises on a cell, the fallback is "planar" and some face of the mesh
    refers to a missing vertex, the loop stops there with [IndexError]: the
    cell's callback invocation and all later cells are skipped, and the scene
    and the store are as before the cell. *)
Theorem planar_index_error_propagates (mesh : loc) (tol : Q) (progress : option Callback)
        (total idx : nat) (c : Cell) (rest : list Cell) (w : W) (e : Exn) :
  fst (exact_outcome w mesh c) = Raise e ->
  face_out_of_range (deref (heap w) mesh) ->
  exists w',
    slice_cells mesh "planar" tol progress total idx (c :: rest) w = (Raise IndexError, w')
    /\ trace w' = trace w ++ [EvIntersect mesh (cell_box c)]
    /\ scene w' = scene w
    /\ heap w' = heap w.
Proof.
  intros He Hbad.
  rewrite slice_cells_cons, slice_cell_run. cbv zeta.
  assert (Hfrag : cell_fragment w mesh c "planar" = Raise IndexError).
  { unfold cell_fragment. rewrite He. unfold fallback_fragment.
    cbn [String.eqb Ascii.eqb Bool.eqb].
    rewrite face_mask_out_of_range; [reflexivity|].
    unfold inside_flags. rewrite length_map. exact Hbad. }
  rewrite Hfrag. eexists. split; [reflexivity|]. repeat split.
Qed.
End CellClaims.

(** X12.  The fallback mask grows with the box: for a mesh with in-range
    faces, a face selected for a box is selected for every box containing
    it. *)
Theorem face_mask_monotone (lo hi lo' hi' : Point3) (m : Mesh) :
  faces_in_range m ->
  (forall a, coord lo' a <= coord lo a /\ coord hi a <= coord hi' a) ->
  exists mask mask',
    face_mask (inside_flags lo hi (vertices m)) (faces m) = Ok mask
    /\ face_mask (inside_flags lo' hi' (vertices m)) (faces m) = Ok mask'
    /\ Forall2 (fun b b' => b = true -> b' = true) mask mask'.
Proof.
  intros Hwf Hbox.
  exists (map (corners_flag (inside_flags lo hi (vertices m))) (faces m)),
    (map (corners_flag (inside_flags lo' hi' (vertices m))) (faces m)).
  split; [|split].
  - apply face_mask_ok. unfold inside_flags. rewrite length_map. exact Hwf.
  - apply face_mask_ok. unfold inside_flags. rewrite length_map. exact Hwf.
  - unfold faces_in_range in Hwf.
    induction Hwf as [|f fs Hf _ IH]; cbn [map]; constructor; [|exact IH].
    rewrite !corners_flag_iff by exact Hf.
    assert (Hmono : forall p, in_closed_box lo hi p -> in_closed_box lo' hi' p).
    { intros p Hp a. specialize (Hp a). specialize (Hbox a). split; lra. }
    unfold triangle_in_box. destruct (face_corners m f) as [[p q] r].
    intros (Hp & Hq & Hr). auto.
Qed.

(** X13.  When the closed box of a cell contains every vertex of a mesh with
    in-range faces, the fallback mask selects every face, and the fallback
    fragment has the triangles of the whole mesh. *)
Theorem fallback_keeps_contained_mesh (m : Mesh) (c : Cell) :
  faces_in_range m ->
  Forall (in_closed_box (cmin c) (cmax c)) (vertices m) ->
  face_mask (inside_flags (cmin c) (cmax c) (vertices m)) (faces m)
  = Ok (map (fun _ => true) (faces m))
  /\ triangles (submesh m (map (fun _ => true) (faces m))) = triangles m.
Proof.
  intros Hwf Hall.
  set (g := corners_flag (inside_flags (cmin c) (cmax c) (vertices m))).
  assert (Hg : forall f, In f (faces m) -> g f = true).
  { intros f Hin. unfold faces_in_range in Hwf. rewrite Forall_forall in Hwf.
    specialize (Hwf f Hin). apply corners_flag_iff; [exact Hwf|].
    rewrite Forall_forall in Hall.
    destruct f as [[a b] d]. destruct Hwf as (Ha & Hb & Hd).
    unfold triangle_in_box, face_corners. repeat split; apply Hall; now apply nth_In. }
  assert (Emask : map g (faces m) = map (fun _ => true) (faces m))
    by (apply map_ext_in; exact Hg).
  split.
  - rewrite <- Emask. apply face_mask_ok. unfold inside_flags. rewrite length_map. exact Hwf.
  - rewrite <- Emask.
    destruct (submesh_of_mask (cmin c) (cmax c) m) as [Htri _]. fold g in Htri.
    rewrite Htri. unfold triangles. f_equal.
    apply forallb_filter_id. apply forallb_forall. exact Hg.
Qed.

(* ================================================================== *)
(** * The print time estimate *)





(* ================================================================== *)
(** * The preview *)










Section PreviewScene.
Context {Engine : Type} {T : Trimesh Engine} {P : PreviewLib}.




(** X19.  The preview fails as its parts fail: an unreadable mesh raises the
    loader's error, a mesh without bounds raises [TypeError], and a zero
    cell size on some axis raises [ValueError]. *)
Theorem create_preview_scene_errors (model_path : string) (cell : Point3) :
  (forall e, load_mesh model_path = Raise e ->
             create_preview_scene model_path cell = Raise e)
  /\ (forall mesh, load_mesh model_path = Ok mesh ->
                   mesh_bounds mesh = None ->
                   create_preview_scene model_path cell = Raise TypeError)
  /\ (forall mesh bounds a,
        load_mesh model_path = Ok mesh ->
        mesh_bounds mesh = Some bounds ->
        coord cell a == 0 ->
        create_preview_scene model_path cell = Raise ValueError).
Proof.
  unfold create_preview_scene. split; [|split].
  - intros e ->. reflexivity.
  - intros mesh Hl Hb. rewrite Hl. cbn [res_bind]. rewrite Hb. reflexivity.
  - intros mesh bounds a Hl Hb Hz. rewrite Hl. cbn [res_bind]. rewrite Hb. cbn [res_bind].
    unfold cutting_planes, arange.
    apply Qeq_bool_iff in Hz.
    destruct (Qeq_bool (coord cell AxX) 0) eqn:EX; [reflexivity|]. cbn [res_bind].
    destruct (Qeq_bool (coord cell AxY) 0) eqn:EY; [reflexivity|]. cbn [res_bind].
    destruct (Qeq_bool (coord cell AxZ) 0) eqn:EZ; [reflexivity|].
    destruct a; congruence.
Qed.
End PreviewScene.

(* ================================================================== *)
(** * The command line, continued *)




(* ================================================================== *)
(** * The further properties at concrete runs *)

Lemma slice_to_single_exports_once_witness :
  let w' := snd (slice_to_single "model.stl" cube3_corner "out.3mf" true "planar" 1
                                 (Some tt) start_world) in
  exists tr,
    trace w'
    = tr ++ [EvExport "out.3mf"
                      (map (fun e => (fst e, deref (heap w') (snd e))) (scene w'))]
    /\ exports tr = exports (trace start_world).
Proof.
  cbv zeta.
  apply (slice_to_single_exports_once "model.stl" cube3_corner "out.3mf" true "planar" 1
                                      (Some tt) start_world _ (Ok tt)).
  reflexivity.
Defined.


Lemma slice_to_single_fails_early_witness :
  exists w',
    slice_to_single "model.stl" (0, 1, 1) "out.3mf" true "planar" 1 (Some tt) start_world
    = (Raise ValueError, w')
    /\ trace w' = trace start_world /\ scene w' = [].
Proof.
  apply (proj2 (proj2 (slice_to_single_fails_early "model.stl" (0, 1, 1) "out.3mf" true
                                                   "planar" 1 (Some tt) start_world))
               corner_mesh (origin, cube3_corner) AxX); reflexivity.
Defined.

Lemma exact_clip_ignores_fallback_witness :
  slice_cell (T := echo_backend) 0 "planar" 1 (Some tt) 1 1 unit_cell start_world
  = slice_cell (T := echo_backend) 0 "none" 1 (Some tt) 1 1 unit_cell start_world
  /\ cell_fragment (T := echo_backend) start_world 0 unit_cell "planar"
     = Ok (Some corner_mesh)
  /\ deref (heap (snd (slice_cell (T := echo_backend) 0 "planar" 1 (Some tt) 1 1
                                  unit_cell start_world)))
           (length (heap start_world)) = corner_mesh.
Proof.
  apply (exact_clip_ignores_fallback (T := echo_backend) 0 1 (Some tt) 1 1 unit_cell
                                     start_world corner_mesh).
  reflexivity.
Defined.

Lemma other_fallback_is_none_witness :
  slice_cells 0 "Planar" 1 (Some tt) 2 1 [unit_cell; far_cell] start_world
  = slice_cells 0 "none" 1 (Some tt) 2 1 [unit_cell; far_cell] start_world.
Proof.
  apply (other_fallback_is_none 0 "Planar" 1 (Some tt) 2 [unit_cell; far_cell]).
  discriminate.
Defined.

Lemma planar_index_error_propagates_witness :
  exists w',
    slice_cells 0 "planar" 1 (Some tt) 2 1 [unit_cell; far_cell] broken_world
    = (Raise IndexError, w')
    /\ trace w' = trace broken_world ++ [EvIntersect 0 (cell_box unit_cell)]
    /\ scene w' = scene broken_world
    /\ heap w' = heap broken_world.
Proof.
  apply (planar_index_error_propagates 0 1 (Some tt) 2 1 unit_cell [far_cell] broken_world
                                       (EngineError "no backend")).
  - reflexivity.
  - constructor. simpl. lia.
Defined.

Lemma face_mask_monotone_witness :
  exists mask mask',
    face_mask (inside_flags origin unit_corner (vertices corner_mesh)) (faces corner_mesh)
    = Ok mask
    /\ face_mask (inside_flags origin cube3_corner (vertices corner_mesh)) (faces corner_mesh)
       = Ok mask'
    /\ Forall2 (fun b b' => b = true -> b' = true) mask mask'.
Proof.
  apply (face_mask_monotone origin unit_corner origin cube3_corner corner_mesh).
  - unfold faces_in_range. simpl. repeat (constructor; try lia).
  - intros a; destruct a; split; vm_compute; discriminate.
Defined.

Lemma fallback_keeps_contained_mesh_witness :
  face_mask (inside_flags (cmin cube3_cell) (cmax cube3_cell) (vertices corner_mesh))
            (faces corner_mesh)
  = Ok (map (fun _ => true) (faces corner_mesh))
  /\ triangles (submesh corner_mesh (map (fun _ => true) (faces corner_mesh)))
     = triangles corner_mesh.
Proof.
  apply (fallback_keeps_contained_mesh corner_mesh cube3_cell).
  - unfold faces_in_range. simpl. repeat (constructor; try lia).
  - simpl.
    repeat (apply Forall_cons; [intros a; destruct a; split; vm_compute; discriminate|]).
    apply Forall_nil.
Defined.


Lemma create_preview_scene_errors_witness :
  create_preview_scene "model.stl" (1, 0, 1) = Raise ValueError.
Proof.
  apply (proj2 (proj2 (create_preview_scene_errors "model.stl" (1, 0, 1)))
               corner_mesh (origin, cube3_corner) AxY); reflexivity.
Defined.
